(** * Agent process orchestrator of the voice assistant

    A shallow embedding of [src/lib/agent-service.ts] (with the parts of
    [room-service] it calls): the registry of agent processes, the
    start/stop facade, the handlers of the child-process events, the
    presence check against the conferencing service and the two status
    queries.

    The orchestrator runs on a single-threaded event loop.  Every stretch
    of code between two [await]s is atomic, so each such stretch is a
    function on an explicit [world]; what the outside supplies (clock
    readings, results of network and file-system calls, the random draw,
    the verdict of [JSON.parse]) comes in as arguments.  Diagnostic
    logging ([debug], [console.error]) has no effect on the state and is
    left out. *)

From Stdlib Require Import ZArith QArith Qround.
From stdpp Require Import gmap strings list pretty.

Close Scope Q_scope.
Open Scope Z_scope.

(** ** Data model *)

(** [status: 'starting' | 'running' | 'error'] *)
Inductive agent_status := Starting | Running | Error.

#[global] Instance agent_status_eq_dec : EqDecision agent_status.
Proof. solve_decision. Defined.

(** The value type of the [agentProcesses] map.  [process] is the
    [ChildProcess] object; objects are referred to by their handle, the
    index of the child in [children] of the world below. *)
Record agent_info := AgentInfo {
  process : nat;
  status : agent_status;
  error : option string;
  pid : Z;
  startTime : Z   (* [Date.getTime()], milliseconds *)
}.

(** Return type of [getAgentStatus]. *)
Module AgentStatus.
Record t := Build {
    running : bool;
    pid : option Z;
    status : option agent_status;
    error : option string;
    uptime : option Z
}.
End AgentStatus.

(** Return type of [startAgent]. *)
Module StartResult.
Record t := Build {
    success : bool;
    error : option string;
    pid : option Z;
    alreadyRunning : option bool
}.
End StartResult.

(** Return type of [getFullAgentStatus]. *)
Module FullStatus.
Record t := Build {
    localProcessRunning : bool;
    agentInRoom : bool;
    pid : option Z;
    status : option agent_status;
    error : option string;
    uptime : option Z
}.
End FullStatus.

(** A call that either returns or throws (rejects). *)
Inductive outcome (A : Type) :=
| Returns (a : A)
| Throws (msg : string).
Arguments Returns {A} a.
Arguments Throws {A} msg.

(** A write stream made by [fs.createWriteStream]; [s_open] turns false
    at [end()]. *)
Record log_stream := LogStream {
  s_path : string;
  s_open : bool
}.

(** How far the launch got in wiring a child it spawned: the two calls
    of [pipe] come first, the listeners after them, and a [pipe] that
    throws leaves what follows it undone. *)
Inductive wiring :=
| Unwired        (* [agentProcess.stdout.pipe(logStream)] threw *)
| StdoutPiped    (* stdout is piped, [agentProcess.stderr.pipe(errorLogStream)] threw *)
| Wired.         (* both are piped, the listeners of [error] and [exit] are registered *)

#[global] Instance wiring_eq_dec : EqDecision wiring.
Proof. solve_decision. Defined.

(** A spawned [ChildProcess] with what its [error] and [exit] listeners
    close over: the [roomName] of the launch and the two log streams
    (indices into [streams]); and how far the launch wired it. *)
Record child := Child {
  c_room : string;
  c_pid : option Z;          (* [agentProcess.pid], undefined when the spawn failed *)
  c_logStream : nat;
  c_errorLogStream : nat;
  c_wiring : wiring
}.

(** The state the service acts on: the module-level map, and the part of
    the outside it leaves traces in. *)
Record world := World {
  agentProcesses : gmap string agent_info;
  children : list child;          (* every process spawned, by handle *)
  scripts : list string;          (* paths passed to [fs.writeFileSync] *)
  streams : list log_stream
}.

Definition empty_world : world :=
  {| agentProcesses := ∅; children := []; scripts := []; streams := [] |}.

Definition set_agentProcesses (m : gmap string agent_info) (w : world) : world :=
  {| agentProcesses := m; children := children w;
     scripts := scripts w; streams := streams w |}.

(** ** Status queries *)

(** [!!agentProcess && agentProcess.status !== 'error'] *)
Definition isAgentRunning (w : world) (roomName : string) : bool :=
  match agentProcesses w !! roomName with
  | Some agentProcess => bool_decide (status agentProcess ≠ Error)
  | None => false
  end.

(** [now] is [new Date().getTime()].  Time stamps are integers; for
    stamps between 0 and 2^53 the difference is exact, and its
    floating-point quotient by 1000 followed by [Math.floor] is the floor
    division of [Z] (next to an integer below 2^44 a double is off by
    less than 1/1000). *)
Definition getAgentStatus (now : Z) (w : world) (roomName : string) : AgentStatus.t :=
  match agentProcesses w !! roomName with
  | None =>
      {| AgentStatus.running := false; AgentStatus.pid := None;
         AgentStatus.status := None; AgentStatus.error := None;
         AgentStatus.uptime := None |}
  | Some agentProcess =>
      let uptime := (now - startTime agentProcess) `div` 1000 in
      {| AgentStatus.running := bool_decide (status agentProcess ≠ Error);
         AgentStatus.pid := Some (pid agentProcess);
         AgentStatus.status := Some (status agentProcess);
         AgentStatus.error := error agentProcess;
         AgentStatus.uptime := Some uptime |}
  end.

(** ** Child-process events, stop, launch *)

(** Assignments to the fields of a record of the map. *)
Definition set_status (s : agent_status) (a : agent_info) : agent_info :=
  {| process := process a; status := s; error := error a; pid := pid a;
     startTime := startTime a |}.

Definition set_error (message : string) (a : agent_info) : agent_info :=
  {| process := process a; status := status a; error := Some message;
     pid := pid a; startTime := startTime a |}.

Definition end_stream (s : log_stream) : log_stream :=
  {| s_path := s_path s; s_open := false |}.

(** The listener of ['error'] registered by the launch of [c_room]
    (the launch registers it on a child it has wired, see [exec]). *)
Definition on_error (h : nat) (message : string) (w : world) : world :=
  match children w !! h with
  | None => w
  | Some c =>
      match agentProcesses w !! c_room c with
      | Some agentInfo =>
          set_agentProcesses
            (<[c_room c := set_error message (set_status Error agentInfo)]>
               (agentProcesses w)) w
      | None => w
      end
  end.

(** The listener of ['exit']; [code] and [signal] are only logged. *)
Definition on_exit (h : nat) (code : option Z) (signal : option string)
    (w : world) : world :=
  match children w !! h with
  | None => w
  | Some c =>
      {| agentProcesses := delete (c_room c) (agentProcesses w);
         children := children w;
         scripts := scripts w;
         streams := alter end_stream (c_errorLogStream c)
                      (alter end_stream (c_logStream c) (streams w)) |}
  end.

(** [readable.pipe(writable)] ends the writable when the readable ends:
    the end of the child's stdout ends [logStream], the end of its
    stderr ends [errorLogStream], whether or not the process has exited. *)
Definition on_stdout_end (h : nat) (w : world) : world :=
  match children w !! h with
  | None => w
  | Some c =>
      if bool_decide (c_wiring c ≠ Unwired) then
        {| agentProcesses := agentProcesses w;
           children := children w;
           scripts := scripts w;
           streams := alter end_stream (c_logStream c) (streams w) |}
      else w
  end.

Definition on_stderr_end (h : nat) (w : world) : world :=
  match children w !! h with
  | None => w
  | Some c =>
      if bool_decide (c_wiring c = Wired) then
        {| agentProcesses := agentProcesses w;
           children := children w;
           scripts := scripts w;
           streams := alter end_stream (c_errorLogStream c) (streams w) |}
      else w
  end.

(** [kill h] is what [process.kill('SIGTERM')] does on the child [h]:
    it returns a boolean or throws. *)
Definition stopAgent (kill : nat → outcome bool) (roomName : string)
    (w : world) : bool * world :=
  match agentProcesses w !! roomName with
  | None => (false, w)
  | Some agentInfo =>
      match kill (process agentInfo) with
      | Returns true =>
          (true, set_agentProcesses (delete roomName (agentProcesses w)) w)
      | Returns false => (false, w)
      | Throws _ => (false, w)
      end
  end.

(** What the outside answers during the synchronous stretch of
    [startAgent] from [generateAgentScript] to the registration of the
    listeners. *)
Record launch_env := LaunchEnv {
  write_script : outcome unit;      (* [ensureAgentDir] and [fs.writeFileSync] *)
  t_script : Z;                     (* the three readings of [Date.now()] *)
  make_logDir : outcome unit;       (* [fs.existsSync] and [fs.mkdirSync] of the log directory *)
  t_log : Z;
  t_errorLog : Z;
  spawn_node : outcome (option Z);  (* [spawn] throws, or gives a child with or without pid *)
  t_start : Z;                      (* [new Date()] of [startTime] *)
  pipe_stdout : outcome unit;       (* [agentProcess.stdout.pipe(logStream)]: throws on a child without stdout *)
  pipe_stderr : outcome unit        (* [agentProcess.stderr.pipe(errorLogStream)] *)
}.

(** File names are kept as given to [path.join]: scripts lie in
    [AGENT_DIR], logs in its [logs] directory. *)
Definition script_name (roomName : string) (t : Z) : string :=
  "agent-" +:+ roomName +:+ "-" +:+ pretty t +:+ ".js".
Definition log_name (roomName : string) (t : Z) : string :=
  "agent-" +:+ roomName +:+ "-" +:+ pretty t +:+ ".log".
Definition errorLog_name (roomName : string) (t : Z) : string :=
  "agent-" +:+ roomName +:+ "-" +:+ pretty t +:+ "-error.log".

(** [generateAgentScript]; the text of the script is not kept. *)
Definition generateAgentScript (e : launch_env) (roomName : string)
    (w : world) : outcome string * world :=
  match write_script e with
  | Throws m => (Throws m, w)
  | Returns _ =>
      let scriptPath := script_name roomName (t_script e) in
      (Returns scriptPath,
       {| agentProcesses := agentProcesses w; children := children w;
          scripts := scripts w ++ [scriptPath]; streams := streams w |})
  end.

(** From [generateAgentScript] to the last [agentProcess.on]: the
    handle and pid of the new child, or what was thrown.  The record is
    set as soon as [spawn] has returned, before the two calls of [pipe]:
    when one of them throws the record stays, and the listeners that
    would change or remove it are not registered. *)
Definition launch (e : launch_env) (roomName : string) (w : world)
    : outcome (nat * option Z) * world :=
  match generateAgentScript e roomName w with
  | (Throws m, w1) => (Throws m, w1)
  | (Returns scriptPath, w1) =>
      match make_logDir e with
      | Throws m => (Throws m, w1)
      | Returns _ =>
          let logStream := length (streams w1) in
          let errorLogStream := S logStream in
          let streams2 :=
            streams w1 ++
              [ {| s_path := log_name roomName (t_log e); s_open := true |};
                {| s_path := errorLog_name roomName (t_errorLog e); s_open := true |} ] in
          match spawn_node e with
          | Throws m =>
              (Throws m,
               {| agentProcesses := agentProcesses w1; children := children w1;
                  scripts := scripts w1; streams := streams2 |})
          | Returns child_pid =>
              let agentProcess := length (children w1) in
              let registered (wired : wiring) :=
                {| agentProcesses :=
                     <[roomName := {| process := agentProcess; status := Starting;
                                      error := None; pid := default 0 child_pid;
                                      startTime := t_start e |}]>
                       (agentProcesses w1);
                   children :=
                     children w1 ++
                       [ {| c_room := roomName; c_pid := child_pid;
                            c_logStream := logStream;
                            c_errorLogStream := errorLogStream;
                            c_wiring := wired |} ];
                   scripts := scripts w1;
                   streams := streams2 |} in
              match pipe_stdout e with
              | Throws m => (Throws m, registered Unwired)
              | Returns _ =>
                  match pipe_stderr e with
                  | Throws m => (Throws m, registered StdoutPiped)
                  | Returns _ => (Returns (agentProcess, child_pid), registered Wired)
                  end
              end
          end
      end
  end.

(** After the grace period: [if (agentInfo && agentInfo.status !== 'error')
    agentInfo.status = 'running']. *)
Definition promote (roomName : string) (w : world) : world :=
  match agentProcesses w !! roomName with
  | Some agentInfo =>
      if bool_decide (status agentInfo ≠ Error) then
        set_agentProcesses
          (<[roomName := set_status Running agentInfo]> (agentProcesses w)) w
      else w
  | None => w
  end.

(** ** Interleaving *)

(** Whether the launch of the child [h] got as far as registering its
    listeners. *)
Definition listening (h : nat) (w : world) : bool :=
  match children w !! h with
  | Some c => bool_decide (c_wiring c = Wired)
  | None => false
  end.

(** What can run on the event loop while a call is suspended at an
    [await]: events of children, stop requests, and the atomic stretches
    of other start requests. *)
Inductive action :=
| ChildError (h : nat) (message : string)
| ChildExit (h : nat) (code : option Z) (signal : option string)
| StdoutEnd (h : nat)
| StderrEnd (h : nat)
| StopAgent (roomName : string) (kill : nat → outcome bool)
| Launch (roomName : string) (e : launch_env)
| Promote (roomName : string).

(** An event of a child runs the listener the launch registered for it.
    On a child that the launch left without listeners no code of the
    service runs; Node raises an ['error'] that finds no listener as an
    uncaught exception, and the worlds reached here include those of a
    service that goes on after it. *)
Definition exec (a : action) (w : world) : world :=
  match a with
  | ChildError h message => if listening h w then on_error h message w else w
  | ChildExit h code signal => if listening h w then on_exit h code signal w else w
  | StdoutEnd h => on_stdout_end h w
  | StderrEnd h => on_stderr_end h w
  | StopAgent roomName kill => (stopAgent kill roomName w).2
  | Launch roomName e => (launch e roomName w).2
  | Promote roomName => promote roomName w
  end.

Definition run (actions : list action) (w : world) : world :=
  foldl (λ w a, exec a w) w actions.

(** ** The conferencing service *)

Record Room := { room_name : string }.

(** A value made by [JSON.parse].  Numbers are doubles: a finite one is
    the rational it denotes, an overflowing literal gives an infinity.
    An object lists its own properties, each key once. *)
#[local] Unset Elimination Schemes.
Inductive json :=
| JNull
| JBool (b : bool)
| JNumber (x : Q)
| JInfinity (negative : bool)
| JString (s : string)
| JArray (items : list json)
| JObject (fields : list (string * json)).
#[local] Set Elimination Schemes.

(** An entry of [listParticipants]; an unset [metadata] is the empty
    string. *)
Record participant := Participant {
  identity : string;
  metadata : string
}.

(** The answers of the LiveKit SDK and of the configuration during one
    call of the service.  A method the client object lacks is [None]. *)
Record livekit := Livekit {
  configured : bool;   (* the URL, the key and the secret are all non-empty *)
  sdk_getRoom : option (string → outcome (option Room));
  sdk_listRooms : outcome (list Room);
  sdk_createRoom : string → outcome Room;
  sdk_listParticipants : option (string → outcome (list participant))
}.

Definition config_missing : string :=
  "LiveKit configuration missing. Please check environment variables.".

(** [getLivekitClient] of room-service and [initLivekitClient] of
    agent-service test the same three variables. *)
Definition getLivekitClient (lk : livekit) : outcome unit :=
  if configured lk then Returns tt else Throws config_missing.

Definition initLivekitClient (lk : livekit) : outcome unit :=
  if configured lk then Returns tt else Throws config_missing.

(** [getRoom]: the client is made outside the [try]; inside it every
    failure becomes [null]. *)
Definition getRoom (lk : livekit) (name : string) : outcome (option Room) :=
  match getLivekitClient lk with
  | Throws m => Throws m
  | Returns _ =>
      match sdk_getRoom lk with
      | Some get =>
          match get name with
          | Returns r => Returns r
          | Throws _ => Returns None
          end
      | None =>
          match sdk_listRooms lk with
          | Returns rooms =>
              Returns (List.find (λ room, String.eqb (room_name room) name) rooms)
          | Throws _ => Returns None
          end
      end
  end.

(** [roomExists]: [!!room], and [false] when [getRoom] rejects. *)
Definition roomExists (lk : livekit) (name : string) : bool :=
  match getRoom lk name with
  | Returns (Some _) => true
  | Returns None => false
  | Throws _ => false
  end.

Definition createRoom (lk : livekit) (name : string) : outcome Room :=
  match getLivekitClient lk with
  | Throws m => Throws m
  | Returns _ => sdk_createRoom lk name
  end.

(** ** startAgent *)

(** One call of [startAgent] from outside: the answers it gets and what
    runs on the event loop at each of its three [await]s. *)
Record start_env := StartEnv {
  now : Z;
  service : livekit;
  launching : launch_env;
  during_roomExists : list action;
  during_createRoom : list action;
  during_grace : list action
}.

Definition start_failed (m : string) : StartResult.t :=
  {| StartResult.success := false; StartResult.error := Some m;
     StartResult.pid := None; StartResult.alreadyRunning := None |}.

(** From the spawn to the [return] after the grace period. *)
Definition launch_and_wait (e : start_env) (roomName : string) (w : world)
    : StartResult.t * world :=
  match launch (launching e) roomName w with
  | (Throws m, w1) => (start_failed m, w1)
  | (Returns (_, child_pid), w1) =>
      let w2 := run (during_grace e) w1 in
      ({| StartResult.success := true; StartResult.error := None;
          StartResult.pid := child_pid; StartResult.alreadyRunning := None |},
       promote roomName w2)
  end.

(** [if (!await roomExists(roomName)) await createRoom(roomName)] *)
Definition ensure_room (e : start_env) (roomName : string) (w : world)
    : outcome unit * world :=
  let reply := roomExists (service e) roomName in
  let w1 := run (during_roomExists e) w in
  if reply then (Returns tt, w1)
  else
    let created := createRoom (service e) roomName in
    let w2 := run (during_createRoom e) w1 in
    match created with
    | Throws m => (Throws m, w2)
    | Returns _ => (Returns tt, w2)
    end.

Definition startAgent (e : start_env) (roomName : string) (w : world)
    : StartResult.t * world :=
  if isAgentRunning w roomName then
    let status := getAgentStatus (now e) w roomName in
    ({| StartResult.success := true; StartResult.error := None;
        StartResult.pid := AgentStatus.pid status;
        StartResult.alreadyRunning := Some true |}, w)
  else
    match ensure_room e roomName w with
    | (Throws m, w1) => (start_failed m, w1)
    | (Returns _, w1) => launch_and_wait e roomName w1
    end.

(** ** Presence check *)

(** [Math.random() > 0.7]: the draw is a double in [0, 1), taken as the
    rational it denotes; the literal is the double nearest to 7/10. *)
Definition threshold : Q := (3152519739159347 # 4503599627370496)%Q.

Definition random_state (draw : Q) : bool := negb (Qle_bool draw threshold).

(** [identity.includes(sub)] *)
Fixpoint includes (sub s : string) : bool :=
  String.prefix sub s ||
  match s with
  | EmptyString => false
  | String _ s' => includes sub s'
  end.

Definition agent_identity (id : string) : bool :=
  String.prefix "agent-" id || includes "assistant" id || includes "bot" id.

(** Reading [.isAgent]: [undefined] is [None]; on [null] it throws. *)
Definition get_isAgent (v : json) : outcome (option json) :=
  match v with
  | JNull => Throws "Cannot read properties of null (reading 'isAgent')"
  | JObject fields =>
      Returns (snd <$> List.find (λ kv, String.eqb (fst kv) "isAgent") fields)
  | _ => Returns None
  end.

(** The truth value of a condition. *)
Definition truthy (v : option json) : bool :=
  match v with
  | None => false
  | Some JNull => false
  | Some (JBool b) => b
  | Some (JNumber x) => negb (Qeq_bool x 0)
  | Some (JInfinity _) => true
  | Some (JString s) => negb (String.eqb s "")
  | Some (JArray _) => true
  | Some (JObject _) => true
  end.

Section Presence.

(** [JSON.parse], total on strings: a value or a [SyntaxError]. *)
Variable JSON_parse : string → outcome json.

(** The body of the loop inside its [try]: [Returns true] is the
    [return true], [Returns false] falls through to the next participant,
    [Throws] lands in the [catch], which continues. *)
Definition inspect (p : participant) : outcome bool :=
  let by_identity := Returns (agent_identity (identity p)) in
  if String.eqb (metadata p) "" then by_identity
  else
    match JSON_parse (metadata p) with
    | Throws m => Throws m
    | Returns md =>
        match get_isAgent md with
        | Throws m => Throws m
        | Returns flag => if truthy flag then Returns true else by_identity
        end
    end.

Fixpoint scan (participants : list participant) : bool :=
  match participants with
  | [] => false
  | p :: rest =>
      match inspect p with
      | Returns true => true
      | Returns false => scan rest
      | Throws _ => scan rest
      end
  end.

(** [draw] is the value [Math.random()] gives if it is called. *)
Definition checkAgentInRoom (lk : livekit) (draw : Q) (roomName : string) : bool :=
  if negb (roomExists lk roomName) then false
  else
    match initLivekitClient lk with
    | Throws _ => random_state draw
    | Returns _ =>
        match sdk_listParticipants lk with
        | None => false
        | Some listParticipants =>
            match listParticipants roomName with
            | Throws _ => random_state draw
            | Returns participants => scan participants
            end
        end
    end.

Definition getFullAgentStatus (t : Z) (lk : livekit) (draw : Q)
    (w : world) (roomName : string) : FullStatus.t :=
  let localStatus := getAgentStatus t w roomName in
  let agentInRoom := checkAgentInRoom lk draw roomName in
  {| FullStatus.localProcessRunning := AgentStatus.running localStatus;
     FullStatus.agentInRoom := agentInRoom;
     FullStatus.pid := AgentStatus.pid localStatus;
     FullStatus.status := AgentStatus.status localStatus;
     FullStatus.error := AgentStatus.error localStatus;
     FullStatus.uptime := AgentStatus.uptime localStatus |}.

End Presence.

(** ** Which participant counts as an agent *)

Section Counting.

Variable JSON_parse : string → outcome json.

(** The explicit agent flag: metadata is given, it parses, and [isAgent]
    of the value holds. *)
Definition has_agent_flag (p : participant) : bool :=
  negb (String.eqb (metadata p) "") &&
  match JSON_parse (metadata p) with
  | Returns md =>
      match get_isAgent md with
      | Returns flag => truthy flag
      | Throws _ => false
      end
  | Throws _ => false
  end.

(** The presence check in the words of its specification: a participant
    matches by the flag or, absent the flag, by the identity. *)
Definition spec_is_agent (p : participant) : bool :=
  has_agent_flag p || agent_identity (identity p).

(** Metadata that is given and is not JSON, or is the JSON [null]. *)
Definition invalid_metadata (p : participant) : bool :=
  negb (String.eqb (metadata p) "") &&
  match JSON_parse (metadata p) with
  | Returns JNull => true
  | Returns _ => false
  | Throws _ => true
  end.

(** A participant with invalid metadata is passed over whatever its
    identity. *)
Definition counts_as_agent (p : participant) : bool :=
  negb (invalid_metadata p) && spec_is_agent p.

End Counting.

(** ** Sample inputs *)

(** [JSON.parse] on the four texts the samples use; it is not meant
    beyond them. *)
Definition JSON_parse_sample (text : string) : outcome json :=
  if String.eqb text "null" then Returns JNull
  else if String.eqb text "true" then Returns (JBool true)
  else if String.eqb text "{}" then Returns (JObject [])
  else Throws "Unexpected end of JSON input".

(** A participant named like an agent whose metadata is cut short. *)
Definition broken_agent : participant :=
  {| identity := "agent-1"; metadata := "{" |}.

(** A configured service that knows every room and answers
    [listParticipants] as given. *)
Definition service_listing (participants : outcome (list participant)) : livekit :=
  {| configured := true;
     sdk_getRoom := Some (λ name, Returns (Some {| room_name := name |}));
     sdk_listRooms := Returns [];
     sdk_createRoom := λ name, Returns {| room_name := name |};
     sdk_listParticipants := Some (λ _, participants) |}.

(** A spawn that gives a child without pid, which then emits [error]
    during the grace period. *)
Definition failing_launch : launch_env :=
  {| write_script := Returns tt; t_script := 1700000000000;
     make_logDir := Returns tt; t_log := 1700000000001;
     t_errorLog := 1700000000001;
     spawn_node := Returns None; t_start := 1700000000002;
     pipe_stdout := Returns tt; pipe_stderr := Returns tt |}.

Definition failing_start : start_env :=
  {| now := 1700000000000; service := service_listing (Returns []);
     launching := failing_launch; during_roomExists := [];
     during_createRoom := [];
     during_grace := [ChildError 0 "spawn node EACCES"] |}.


Definition sample_launch : launch_env :=
  {| write_script := Returns tt; t_script := 1700000000000;
     make_logDir := Returns tt; t_log := 1700000000001;
     t_errorLog := 1700000000001;
     spawn_node := Returns (Some 4242); t_start := 1700000000002;
     pipe_stdout := Returns tt; pipe_stderr := Returns tt |}.

(** A service that knows every room and lists no participant. *)
Definition sample_service : livekit := service_listing (Returns []).

Definition sample_start : start_env :=
  {| now := 1700000000000; service := sample_service;
     launching := sample_launch; during_roomExists := [];
     during_createRoom := []; during_grace := [] |}.

Definition study : string := "study-1".

(** The world after one undisturbed start of [study]. *)
Definition sample_history : list action :=
  [Launch study sample_launch; Promote study].

Definition sample_world : world := run sample_history empty_world.

(** The record of [study] in [sample_world], and what an [error] event
    makes of it. *)
Definition sample_record : agent_info :=
  {| process := 0%nat; status := Running; error := None; pid := 4242;
     startTime := 1700000000002 |}.

Definition errored_record : agent_info :=
  set_error "late failure" (set_status Error sample_record).

(** ** The client of the room service *)

(** The three settings read from [process.env]; an unset variable is
    [None]. *)
Record environment := Environment {
  NEXT_PUBLIC_LIVEKIT_URL : option string;
  LIVEKIT_API_KEY : option string;
  LIVEKIT_API_SECRET : option string
}.

(** [process.env.X || ""] *)
Definition or_empty (v : option string) : string := default "" v.

(** What follows [p] in [s], if [s] starts with [p]. *)
Fixpoint strip_prefix (p s : string) : option string :=
  match p, s with
  | EmptyString, _ => Some s
  | String _ _, EmptyString => None
  | String a p', String b s' =>
      if Ascii.eqb a b then strip_prefix p' s' else None
  end.

(** [livekitHost.replace(/^(wss?:\/\/)/, "https://")] *)
Definition client_host (livekitHost : string) : string :=
  match strip_prefix "wss://" livekitHost with
  | Some rest => "https://" +:+ rest
  | None =>
      match strip_prefix "ws://" livekitHost with
      | Some rest => "https://" +:+ rest
      | None => livekitHost
      end
  end.

(** The arguments [new RoomServiceClient] is given. *)
Record RoomServiceClient := {
  client_host_url : string;
  client_apiKey : string;
  client_apiSecret : string
}.

(** [getLivekitClient] of room-service and [initLivekitClient] of
    agent-service, on the settings themselves. *)
Definition client_of (env : environment) : outcome RoomServiceClient :=
  let livekitHost := or_empty (NEXT_PUBLIC_LIVEKIT_URL env) in
  let apiKey := or_empty (LIVEKIT_API_KEY env) in
  let apiSecret := or_empty (LIVEKIT_API_SECRET env) in
  if String.eqb livekitHost "" || String.eqb apiKey "" || String.eqb apiSecret ""
  then Throws config_missing
  else Returns {| client_host_url := client_host livekitHost;
                  client_apiKey := apiKey; client_apiSecret := apiSecret |}.

(** ** The rest of the room service *)

Definition listRooms (lk : livekit) : outcome (list Room) :=
  match getLivekitClient lk with
  | Throws m => Throws m
  | Returns _ => sdk_listRooms lk
  end.

(** [deleteRoom]; [sdk_deleteRoom] is the method of the client, [None]
    if the client lacks it. *)
Definition deleteRoom (lk : livekit)
    (sdk_deleteRoom : option (string → outcome unit)) (name : string)
    : outcome bool :=
  match getLivekitClient lk with
  | Throws m => Throws m
  | Returns _ =>
      match sdk_deleteRoom with
      | Some delete_room =>
          match delete_room name with
          | Returns _ => Returns true
          | Throws _ => Returns false
          end
      | None => Returns false
      end
  end.

(** A JavaScript number: a finite double as the rational it denotes,
    [NaN], or an infinity. *)
Inductive js_number :=
| Finite (x : Q)
| NaN
| Infinite (negative : bool).

Definition number_truthy (n : js_number) : bool :=
  match n with
  | Finite x => negb (Qeq_bool x 0)
  | NaN => false
  | Infinite _ => true
  end.

(** The optional second argument of [createRoom]. *)
Module RoomOptions.
Record t := Build {
  emptyTimeout : option js_number;
  maxParticipants : option js_number
}.
End RoomOptions.

(** The [opts] handed to the client's [createRoom]. *)
Module CreateOptions.
Record t := Build {
  name : string;
  emptyTimeout : js_number;
  maxParticipants : js_number
}.
End CreateOptions.

(** [v || d] for an optional number. *)
Definition number_or (v : option js_number) (d : js_number) : js_number :=
  match v with
  | Some n => if number_truthy n then n else d
  | None => d
  end.

Definition createRoom_opts (name : string) (options : option RoomOptions.t)
    : CreateOptions.t :=
  {| CreateOptions.name := name;
     CreateOptions.emptyTimeout :=
       number_or (options ≫= RoomOptions.emptyTimeout) (Finite (10 * 60));
     CreateOptions.maxParticipants :=
       number_or (options ≫= RoomOptions.maxParticipants) (Finite 20) |}.

(** ** Tokens *)

Record VideoGrant := {
  roomJoin : bool;
  room : string;
  canPublish : bool;
  canSubscribe : bool;
  canPublishData : bool
}.

(** An [AccessToken] before it is signed. *)
Record AccessToken := {
  token_apiKey : string;
  token_apiSecret : string;
  token_identity : string;
  token_ttl : string;
  token_grants : list VideoGrant
}.

Definition token_not_configured : string :=
  "LiveKit API key or secret not configured".

(** [generateToken] of livekit-server: the result of [toJwt], and the
    room names it had the client's [createRoom] called with. *)
Definition generateToken (toJwt : AccessToken → outcome string)
    (apiKey apiSecret : option string) (lk : livekit)
    (roomName username : string) : outcome string * list string :=
  if String.eqb (or_empty apiKey) "" || String.eqb (or_empty apiSecret) "" then
    (Throws token_not_configured, [])
  else
    let created :=
      if roomExists lk roomName then []
      else
        match getLivekitClient lk with
        | Returns _ => [roomName]
        | Throws _ => []
        end in
    let at_ :=
      {| token_apiKey := or_empty apiKey;
         token_apiSecret := or_empty apiSecret;
         token_identity := username;
         token_ttl := "24h";
         token_grants :=
           [ {| roomJoin := true; room := roomName; canPublish := true;
                canSubscribe := true; canPublishData := true |} ] |} in
    (toJwt at_, created).

(** ** The guard of the token route *)

(** What [middleware] reads of a request: the path and two headers,
    [None] for a header that is not sent. *)
Record NextRequest := {
  pathname : string;
  origin : option string;
  host : option string
}.

(** [NextResponse.json({ error: "Unauthorized" }, { status: 401 })] or
    [NextResponse.next()]. *)
Inductive NextResponse := Unauthorized | Next.

Definition middleware (request : NextRequest) : NextResponse :=
  if String.prefix "/api/livekit-token" (pathname request) then
    match origin request, host request with
    | Some o, Some h =>
        if negb (String.eqb o "") && negb (String.eqb h "") &&
           negb (includes h o)
        then Unauthorized else Next
    | _, _ => Next
    end
  else Next.

(** ** The conversation context *)

Inductive role := user | assistant.

Record message := {
  message_role : role;
  content : string
}.

(** [ToIntegerOrInfinity] *)
Inductive integer_or_infinity :=
| Integer (z : Z)
| PlusInfinity
| MinusInfinity.

(** Rounding toward zero. *)
Definition Qtruncate (x : Q) : Z :=
  if Qle_bool 0 x then Qfloor x else Qceiling x.

Definition ToIntegerOrInfinity (n : js_number) : integer_or_infinity :=
  match n with
  | NaN => Integer 0
  | Infinite negative => if negative then MinusInfinity else PlusInfinity
  | Finite x => Integer (Qtruncate x)
  end.

(** Unary minus. *)
Definition negate (n : js_number) : js_number :=
  match n with
  | Finite x => Finite (- x)
  | NaN => NaN
  | Infinite negative => Infinite (negb negative)
  end.

(** [array.slice(start)] *)
Definition slice {A} (start : js_number) (array : list A) : list A :=
  let len := Z.of_nat (length array) in
  let k :=
    match ToIntegerOrInfinity start with
    | MinusInfinity => 0
    | Integer relativeStart =>
        if relativeStart <? 0 then Z.max (len + relativeStart) 0
        else Z.min relativeStart len
    | PlusInfinity => len
    end in
  drop (Z.to_nat k) array.

(** The three operations of [useConversationContext] on
    [messagesRef.current]. *)
Definition addMessage (maxContextSize : js_number) (m : message)
    (current : list message) : list message :=
  slice (negate maxContextSize) (current ++ [m]).

Definition updateMessages (maxContextSize : js_number)
    (messages : list message) : list message :=
  slice (negate maxContextSize) messages.

Definition clearMessages : list message := [].

(** ** The shared audio context *)

(** [ctx.state] *)
Inductive context_state := ctx_suspended | ctx_running | ctx_closed.

#[global] Instance context_state_eq_dec : EqDecision context_state.
Proof. solve_decision. Defined.

(** A method asked of a context. *)
Inductive audio_call := call_suspend | call_resume | call_close.

(** The page: whether there is a [window], the context stored in
    [window.__SHARED_AUDIO_CONTEXT__], how many contexts were made (a new
    one is numbered by that count), and the methods asked of contexts. *)
Record page := Page {
  isClient : bool;
  SHARED_AUDIO_CONTEXT : option nat;
  constructed : nat;
  audio_calls : list (nat * audio_call)
}.

Definition server_side : string := "Cannot create AudioContext on server side".

(** [construct] is what [new AudioContext()] does if it is reached. *)
Definition getSharedAudioContext (construct : outcome unit) (w : page)
    : outcome nat * page :=
  if negb (isClient w) then (Throws server_side, w)
  else
    match SHARED_AUDIO_CONTEXT w with
    | Some ctx => (Returns ctx, w)
    | None =>
        match construct with
        | Throws m => (Throws m, w)
        | Returns _ =>
            (Returns (constructed w),
             {| isClient := isClient w;
                SHARED_AUDIO_CONTEXT := Some (constructed w);
                constructed := S (constructed w);
                audio_calls := audio_calls w |})
        end
    end.

Definition ask (ctx : nat) (call : audio_call) (w : page) : page :=
  {| isClient := isClient w; SHARED_AUDIO_CONTEXT := SHARED_AUDIO_CONTEXT w;
     constructed := constructed w;
     audio_calls := audio_calls w ++ [(ctx, call)] |}.

(** [state ctx] is [ctx.state] as read during the call. *)
Definition suspendAudioContext (state : nat → context_state) (w : page) : page :=
  if negb (isClient w) then w
  else
    match SHARED_AUDIO_CONTEXT w with
    | Some ctx =>
        if bool_decide (state ctx = ctx_running) then ask ctx call_suspend w
        else w
    | None => w
    end.

(** The function is not [async]: what [getSharedAudioContext] throws
    leaves it as an exception. *)
Definition resumeAudioContext (construct : outcome unit)
    (state : nat → context_state) (w : page) : outcome unit * page :=
  if negb (isClient w) then (Returns tt, w)
  else
    let made :=
      match SHARED_AUDIO_CONTEXT w with
      | None => getSharedAudioContext construct w
      | Some ctx => (Returns ctx, w)
      end in
    match made with
    | (Throws m, w1) => (Throws m, w1)
    | (Returns _, w1) =>
        match SHARED_AUDIO_CONTEXT w1 with
        | Some ctx =>
            if bool_decide (state ctx = ctx_suspended)
            then (Returns tt, ask ctx call_resume w1)
            else (Returns tt, w1)
        | None => (Returns tt, w1)
        end
    end.

Definition closeAudioContext (w : page) : page :=
  if negb (isClient w) then w
  else
    match SHARED_AUDIO_CONTEXT w with
    | Some ctx =>
        {| isClient := isClient w; SHARED_AUDIO_CONTEXT := None;
           constructed := constructed w;
           audio_calls := audio_calls w ++ [(ctx, call_close)] |}
    | None => w
    end.

(** Uses of the four functions, one after the other. *)
Inductive audio_use :=
| UseGet (construct : outcome unit)
| UseSuspend (state : nat → context_state)
| UseResume (construct : outcome unit) (state : nat → context_state)
| UseClose.

Definition audio_step (w : page) (u : audio_use) : page :=
  match u with
  | UseGet construct => (getSharedAudioContext construct w).2
  | UseSuspend state => suspendAudioContext state w
  | UseResume construct state => (resumeAudioContext construct state w).2
  | UseClose => closeAudioContext w
  end.

Definition is_close (u : audio_use) : bool :=
  match u with UseClose => true | _ => false end.

(** ** The order of the lifecycle *)

(** [Starting] comes before [Running], [Running] before [Error]. *)
Definition status_rank (s : agent_status) : nat :=
  match s with
  | Starting => 0
  | Running => 1
  | Error => 2
  end.

(** A message is kept exactly in the records in [Error]. *)
Definition error_marked (w : world) : Prop :=
  ∀ roomName agentInfo,
    agentProcesses w !! roomName = Some agentInfo →
    (status agentInfo = Error ↔ is_Some (error agentInfo)).

(** The streams [i] and [S i] are [s1] and [s2], and no child has them
    as its log streams. *)
Definition unowned_streams (i : nat) (s1 s2 : log_stream) (w : world) : Prop :=
  (∀ h c, children w !! h = Some c →
     c_errorLogStream c = S (c_logStream c) ∧
     ((c_errorLogStream c < i)%nat ∨ (S (S i) ≤ c_logStream c)%nat)) ∧
  (S (S i) ≤ length (streams w))%nat ∧
  streams w !! i = Some s1 ∧
  streams w !! S i = Some s2.

(** * Properties *)

(** ** Reachable worlds and their invariant *)

Definition reachable (w : world) : Prop :=
  ∃ history : list action, w = run history empty_world.

(** Every record points to the child spawned for its room, and every
    child to two streams that exist. *)
Record wf (w : world) : Prop := Wf {
  wf_registry : ∀ roomName agentInfo,
    agentProcesses w !! roomName = Some agentInfo →
    ∃ c, children w !! process agentInfo = Some c ∧ c_room c = roomName ∧
         pid agentInfo = default 0 (c_pid c);
  wf_streams : ∀ h c,
    children w !! h = Some c →
    c_errorLogStream c = S (c_logStream c) ∧
    (c_errorLogStream c < length (streams w))%nat
}.

Lemma wf_empty : wf empty_world.
Proof.
  split; cbn.
  - intros roomName agentInfo H. by rewrite lookup_empty in H.
  - intros h c H. by rewrite lookup_nil in H.
Qed.

Lemma run_snoc actions a w : run (actions ++ [a]) w = exec a (run actions w).
Proof. unfold run. by rewrite foldl_snoc. Qed.

Lemma run_app actions1 actions2 w :
  run (actions1 ++ actions2) w = run actions2 (run actions1 w).
Proof. unfold run. by rewrite foldl_app. Qed.

Lemma wf_on_error h message w : wf w → wf (on_error h message w).
Proof.
  intros [Hreg Hstr]. unfold on_error.
  destruct (children w !! h) as [c|] eqn:Hc; [|by split].
  destruct (agentProcesses w !! c_room c) as [agentInfo|] eqn:Hinfo; [|by split].
  split; cbn; [|done].
  intros roomName rec [[<- <-]|[Hne Hrec]]%lookup_insert_Some; cbn.
  - by apply Hreg.
  - by apply Hreg.
Qed.

Lemma wf_on_exit h code signal w : wf w → wf (on_exit h code signal w).
Proof.
  intros [Hreg Hstr]. unfold on_exit.
  destruct (children w !! h) as [c|] eqn:Hc; [|by split].
  split; cbn.
  - intros roomName rec [_ Hrec]%lookup_delete_Some. by apply Hreg.
  - intros h' c' Hc'. rewrite !length_alter. by eapply Hstr.
Qed.

Lemma wf_on_stdout_end h w : wf w → wf (on_stdout_end h w).
Proof.
  intros [Hreg Hstr]. unfold on_stdout_end.
  destruct (children w !! h) as [c|] eqn:Hc; [|by split].
  case_bool_decide; [|by split].
  split; cbn; [done|].
  intros h' c' Hc'. rewrite length_alter. by eapply Hstr.
Qed.

Lemma wf_on_stderr_end h w : wf w → wf (on_stderr_end h w).
Proof.
  intros [Hreg Hstr]. unfold on_stderr_end.
  destruct (children w !! h) as [c|] eqn:Hc; [|by split].
  case_bool_decide; [|by split].
  split; cbn; [done|].
  intros h' c' Hc'. rewrite length_alter. by eapply Hstr.
Qed.

Lemma wf_stopAgent kill roomName w : wf w → wf (stopAgent kill roomName w).2.
Proof.
  intros Hwf. unfold stopAgent.
  destruct (agentProcesses w !! roomName) as [agentInfo|]; [|done].
  destruct (kill (process agentInfo)) as [[|]|]; cbn; [|done..].
  destruct Hwf as [Hreg Hstr]. split; cbn; [|done].
  intros room rec [_ Hrec]%lookup_delete_Some. by apply Hreg.
Qed.

Lemma wf_promote roomName w : wf w → wf (promote roomName w).
Proof.
  intros Hwf. unfold promote.
  destruct (agentProcesses w !! roomName) as [agentInfo|] eqn:Hinfo; [|done].
  case_bool_decide; [|done].
  destruct Hwf as [Hreg Hstr]. split; cbn; [|done].
  intros room rec [[<- <-]|[Hne Hrec]]%lookup_insert_Some; cbn; by apply Hreg.
Qed.

Lemma wf_launch e roomName w : wf w → wf (launch e roomName w).2.
Proof.
  intros [Hreg Hstr]. unfold launch, generateAgentScript.
  destruct (write_script e); cbn; [|by split].
  destruct (make_logDir e); cbn; [|by split].
  destruct (spawn_node e) as [child_pid|]; cbn.
  - assert (∀ wired,
      wf {| agentProcesses :=
               <[roomName := {| process := length (children w); status := Starting;
                                error := None; pid := default 0 child_pid;
                                startTime := t_start e |}]> (agentProcesses w);
             children :=
               children w ++
                 [ {| c_room := roomName; c_pid := child_pid;
                      c_logStream := length (streams w);
                      c_errorLogStream := S (length (streams w));
                      c_wiring := wired |} ];
             scripts := scripts w ++ [script_name roomName (t_script e)];
             streams :=
               streams w ++
                 [ {| s_path := log_name roomName (t_log e); s_open := true |};
                   {| s_path := errorLog_name roomName (t_errorLog e);
                      s_open := true |} ] |}) as Hregistered.
    { intros wired. split; cbn.
      + intros room rec [[<- <-]|[Hne Hrec]]%lookup_insert_Some; cbn.
        * eexists. split; [apply list_lookup_middle; done|done].
        * destruct (Hreg _ _ Hrec) as (c & Hc & Hroom & Hpid).
          exists c. split_and!; [|done..].
          rewrite lookup_app_l; [done|]. by eapply lookup_lt_Some.
      + intros h c [[_ Hc]|[_ <-]]%lookup_snoc_Some; cbn.
        * destruct (Hstr _ _ Hc) as [HS Hlt]. split; [done|].
          rewrite length_app. cbn. lia.
        * split; [done|]. rewrite length_app. cbn. lia. }
    destruct (pipe_stdout e) as [[]|]; [destruct (pipe_stderr e) as [[]|]|];
      cbn; apply Hregistered.
  - split; cbn; [done|].
    intros h c Hc. destruct (Hstr _ _ Hc) as [HS Hlt]. split; [done|].
    rewrite length_app. cbn. lia.
Qed.

Lemma wf_exec a w : wf w → wf (exec a w).
Proof.
  destruct a; cbn; try case_match;
    auto using wf_on_error, wf_on_exit, wf_on_stdout_end, wf_on_stderr_end,
      wf_stopAgent, wf_launch, wf_promote.
Qed.

Lemma wf_run actions w : wf w → wf (run actions w).
Proof.
  induction actions as [|a actions IH] using rev_ind; [done|].
  intros Hwf. rewrite run_snoc. by apply wf_exec, IH.
Qed.

Lemma wf_reachable w : reachable w → wf w.
Proof. intros [history ->]. apply wf_run, wf_empty. Qed.

(** ** The registry queries *)

(** C7. [isAgentRunning roomName] is true exactly when the map holds a
    record for the room and the status of that record is not [Error]. *)
Theorem isAgentRunning_iff (w : world) (roomName : string) :
  isAgentRunning w roomName = true ↔
  ∃ agentInfo, agentProcesses w !! roomName = Some agentInfo ∧
               status agentInfo ≠ Error.
Proof.
  unfold isAgentRunning. split.
  - destruct (agentProcesses w !! roomName) as [agentInfo|]; [|done].
    intros H%bool_decide_eq_true. by exists agentInfo.
  - intros (agentInfo & -> & Hstatus). by apply bool_decide_eq_true.
Qed.

(** C10. In every state of the map and at every time, the [running]
    field of [getAgentStatus roomName] is the value of
    [isAgentRunning roomName]. *)
Theorem getAgentStatus_running_agrees (t : Z) (w : world) (roomName : string) :
  AgentStatus.running (getAgentStatus t w roomName) = isAgentRunning w roomName.
Proof.
  unfold getAgentStatus, isAgentRunning.
  by destruct (agentProcesses w !! roomName).
Qed.

(** ** Idempotent start *)

(** C2. When the map holds a record for the room whose status is not
    [Error], [startAgent] answers success with [alreadyRunning = true]
    and the pid of the record, and the world is the one it started from:
    no child spawned, no script or log stream made, the map as it was. *)
Theorem startAgent_already_running (e : start_env) (roomName : string)
    (w : world) (agentInfo : agent_info) :
  agentProcesses w !! roomName = Some agentInfo →
  status agentInfo ≠ Error →
  startAgent e roomName w =
    ({| StartResult.success := true; StartResult.error := None;
        StartResult.pid := Some (pid agentInfo);
        StartResult.alreadyRunning := Some true |}, w).
Proof.
  intros Hrec Hstatus. unfold startAgent, isAgentRunning, getAgentStatus.
  rewrite Hrec. by rewrite bool_decide_eq_true_2.
Qed.

(** X24.  Two starts in a row, nothing else running in between: the first
    launches, the second finds the room running and returns the pid the
    map has kept, and only one child was spawned. *)
Lemma startAgent_twice e e' roomName w h child_pid w1 :
  isAgentRunning w roomName = false →
  during_grace e = [] →
  ensure_room e roomName w = (Returns tt, w) →
  launch (launching e) roomName w = (Returns (h, child_pid), w1) →
  let first := startAgent e roomName w in
  let second := startAgent e' roomName first.2 in
  StartResult.alreadyRunning first.1 = None ∧
  second.1 =
    {| StartResult.success := true; StartResult.error := None;
       StartResult.pid := Some (default 0 child_pid);
       StartResult.alreadyRunning := Some true |} ∧
  second.2 = first.2 ∧
  length (children second.2) = S (length (children w)).
Proof.
  intros Hidle Hquiet Hroom Hlaunch first second.
  assert (first = ({| StartResult.success := true; StartResult.error := None;
                      StartResult.pid := child_pid;
                      StartResult.alreadyRunning := None |},
                   promote roomName w1)) as Hfirst.
  { subst first. unfold startAgent. rewrite Hidle, Hroom.
    unfold launch_and_wait. by rewrite Hlaunch, Hquiet. }
  revert Hlaunch. unfold launch, generateAgentScript.
  destruct (write_script (launching e)); cbn; [|done].
  destruct (make_logDir (launching e)); cbn; [|done].
  destruct (spawn_node (launching e)) as [p|]; cbn; [|done].
  destruct (pipe_stdout (launching e)); cbn; [|done].
  destruct (pipe_stderr (launching e)); cbn; [|done].
  intros [= <- <- <-].
  subst second. rewrite Hfirst. cbn [fst snd].
  unfold promote. cbn [agentProcesses]. rewrite lookup_insert_eq.
  cbn [status]. rewrite bool_decide_eq_true_2 by done.
  unfold startAgent, isAgentRunning, getAgentStatus, set_agentProcesses.
  cbn [agentProcesses]. rewrite lookup_insert_eq.
  cbn [status set_status]. rewrite bool_decide_eq_true_2 by done.
  cbn. split_and!; try done.
  rewrite length_app. cbn. lia.
Qed.

(** ** Stop *)

(** C5. [stopAgent] on a room without record answers [false] and leaves
    the world as it is.  On a room with a record: when [kill] returns
    [true] it answers [true] and the record is gone from the map it
    returns, nothing else having changed; when [kill] returns [false] or
    throws it answers [false] and leaves the world as it is. *)
Theorem stopAgent_outcomes (kill : nat → outcome bool) (roomName : string)
    (w : world) :
  (agentProcesses w !! roomName = None →
     stopAgent kill roomName w = (false, w)) ∧
  (∀ agentInfo, agentProcesses w !! roomName = Some agentInfo →
     (kill (process agentInfo) = Returns true →
        (stopAgent kill roomName w).1 = true ∧
        agentProcesses (stopAgent kill roomName w).2 !! roomName = None ∧
        (∀ other, other ≠ roomName →
           agentProcesses (stopAgent kill roomName w).2 !! other =
           agentProcesses w !! other) ∧
        children (stopAgent kill roomName w).2 = children w ∧
        scripts (stopAgent kill roomName w).2 = scripts w ∧
        streams (stopAgent kill roomName w).2 = streams w) ∧
     (kill (process agentInfo) = Returns false ∨
      (∃ m, kill (process agentInfo) = Throws m) →
        stopAgent kill roomName w = (false, w))).
Proof.
  unfold stopAgent. split.
  - by intros ->.
  - intros agentInfo ->. split.
    + intros ->. cbn. split_and!; try done.
      * apply lookup_delete_eq.
      * intros other Hne. by apply lookup_delete_ne.
    + by intros [->|[m ->]].
Qed.

(** ** End of the grace period *)

Lemma promote_idempotent roomName w :
  promote roomName (promote roomName w) = promote roomName w.
Proof.
  unfold promote.
  destruct (agentProcesses w !! roomName) as [agentInfo|] eqn:Hrec;
    [|by rewrite Hrec].
  case_bool_decide as Hstatus; cbn.
  - rewrite lookup_insert_eq. cbn. unfold set_agentProcesses. cbn.
    by rewrite insert_insert_eq.
  - rewrite Hrec. rewrite bool_decide_eq_false_2; [done|]. by intros [].
Qed.

(** C4. In a launch that got its child, let [w2] be the world when the
    grace period ends, whatever ran on the event loop meanwhile.  The
    call ends in the world [w3] that one promotion step makes of [w2]:
    a record of the room whose status is not [Error] has become
    [Running], all else unchanged; a record in [Error] stays as it is,
    and so does the world without a record.  Promoting [w3] again would
    change nothing. *)
Theorem grace_period_promotion (e : start_env) (roomName : string)
    (w w1 : world) (h : nat) (child_pid : option Z) :
  launch (launching e) roomName w = (Returns (h, child_pid), w1) →
  let w2 := run (during_grace e) w1 in
  let w3 := (launch_and_wait e roomName w).2 in
  (∀ agentInfo, agentProcesses w2 !! roomName = Some agentInfo →
     (status agentInfo ≠ Error →
        agentProcesses w3 !! roomName = Some (set_status Running agentInfo) ∧
        w3 = set_agentProcesses
               (<[roomName := set_status Running agentInfo]> (agentProcesses w2))
               w2) ∧
     (status agentInfo = Error →
        agentProcesses w3 !! roomName = Some agentInfo ∧ w3 = w2)) ∧
  (agentProcesses w2 !! roomName = None → w3 = w2) ∧
  promote roomName w3 = w3.
Proof.
  intros Hlaunch w2 w3.
  assert (w3 = promote roomName w2) as Hw3.
  { subst w3 w2. unfold launch_and_wait. by rewrite Hlaunch. }
  rewrite Hw3. split_and!.
  - intros agentInfo Hrec. unfold promote. rewrite Hrec. split.
    + intros Hstatus. rewrite bool_decide_eq_true_2 by done.
      split; [|done]. cbn. apply lookup_insert_eq.
    + intros Hstatus. rewrite bool_decide_eq_false_2; [done|].
      intros Hne. by apply Hne.
  - intros Hrec. unfold promote. by rewrite Hrec.
  - apply promote_idempotent.
Qed.

(** ** Exit of a child *)

Lemma children_exec a w : ∃ new, children (exec a w) = children w ++ new.
Proof.
  destruct a as [h message|h code signal|h|h|roomName kill|roomName e|roomName];
    cbn.
  - exists []. rewrite app_nil_r. destruct (listening h w); [|done].
    unfold on_error.
    destruct (children w !! h) as [c|]; [|done].
    by destruct (agentProcesses w !! c_room c).
  - exists []. rewrite app_nil_r. destruct (listening h w); [|done].
    unfold on_exit.
    by destruct (children w !! h).
  - exists []. rewrite app_nil_r. unfold on_stdout_end.
    destruct (children w !! h) as [c|]; [|done]. by case_bool_decide.
  - exists []. rewrite app_nil_r. unfold on_stderr_end.
    destruct (children w !! h) as [c|]; [|done]. by case_bool_decide.
  - exists []. rewrite app_nil_r. unfold stopAgent.
    destruct (agentProcesses w !! roomName) as [agentInfo|]; [|done].
    by destruct (kill (process agentInfo)) as [[|]|].
  - unfold launch, generateAgentScript.
    destruct (write_script e); cbn; [|exists []; by rewrite app_nil_r].
    destruct (make_logDir e); cbn; [|exists []; by rewrite app_nil_r].
    destruct (spawn_node e); cbn; [|exists []; by rewrite app_nil_r].
    destruct (pipe_stdout e); [destruct (pipe_stderr e)|]; by eexists.
  - exists []. rewrite app_nil_r. unfold promote.
    destruct (agentProcesses w !! roomName) as [agentInfo|]; [|done].
    by case_bool_decide.
Qed.

Lemma children_run actions w : ∃ new, children (run actions w) = children w ++ new.
Proof.
  induction actions as [|a actions [new IH]] using rev_ind.
  - exists []. by rewrite app_nil_r.
  - rewrite run_snoc. destruct (children_exec a (run actions w)) as [new' ->].
    rewrite IH. exists (new ++ new'). by rewrite app_assoc.
Qed.

Lemma children_run_length actions w :
  (length (children w) ≤ length (children (run actions w)))%nat.
Proof.
  destruct (children_run actions w) as [new ->]. rewrite length_app. lia.
Qed.

(** The world in which [ensure_room] resumes is the one it was called in
    after what ran at its [await]s. *)
Lemma ensure_room_world e roomName w :
  ∃ actions, (ensure_room e roomName w).2 = run actions w.
Proof.
  unfold ensure_room. destruct (roomExists (service e) roomName).
  - by exists (during_roomExists e).
  - exists (during_roomExists e ++ during_createRoom e). rewrite run_app.
    by destruct (createRoom (service e) roomName).
Qed.

(** Every call of the facade moves the world by actions, so the worlds
    it makes are reachable ones. *)
Lemma launch_and_wait_world e roomName w :
  ∃ actions, (launch_and_wait e roomName w).2 = run actions w.
Proof.
  unfold launch_and_wait.
  destruct (launch (launching e) roomName w) as [[[h child_pid]|m] w1] eqn:Hl.
  - exists ([Launch roomName (launching e)] ++ during_grace e ++ [Promote roomName]).
    rewrite !run_app. cbn. by rewrite Hl.
  - exists [Launch roomName (launching e)]. cbn. by rewrite Hl.
Qed.

Lemma startAgent_world e roomName w :
  ∃ actions, (startAgent e roomName w).2 = run actions w.
Proof.
  unfold startAgent. destruct (isAgentRunning w roomName); [by exists []|].
  destruct (ensure_room_world e roomName w) as [before Hbefore].
  destruct (ensure_room e roomName w) as [[[]|m] w1]; cbn in Hbefore.
  - destruct (launch_and_wait_world e roomName w1) as [after ->].
    exists (before ++ after). by rewrite run_app, Hbefore.
  - by exists before.
Qed.

Lemma startAgent_reachable e roomName w :
  reachable w → reachable (startAgent e roomName w).2.
Proof.
  intros [history ->].
  destruct (startAgent_world e roomName (run history empty_world))
    as [actions ->].
  exists (history ++ actions). by rewrite run_app.
Qed.

Lemma stopAgent_reachable kill roomName w :
  reachable w → reachable (stopAgent kill roomName w).2.
Proof.
  intros [history ->]. exists (history ++ [StopAgent roomName kill]).
  by rewrite run_snoc.
Qed.

Lemma startAgent_not_running e roomName w :
  isAgentRunning w roomName = false →
  StartResult.alreadyRunning (startAgent e roomName w).1 = None.
Proof.
  intros Hrun. unfold startAgent. rewrite Hrun.
  destruct (ensure_room e roomName w) as [[[]|m] w1]; [|done].
  unfold launch_and_wait.
  by destruct (launch (launching e) roomName w1) as [[[h child_pid]|m] w2].
Qed.

Lemma scripts_exec a w : scripts w `prefix_of` scripts (exec a w).
Proof.
  destruct a as [h message|h code signal|h|h|roomName kill|roomName e|roomName];
    cbn.
  - destruct (listening h w); [|done]. unfold on_error.
    destruct (children w !! h) as [c|]; [|done].
    by destruct (agentProcesses w !! c_room c).
  - destruct (listening h w); [|done]. unfold on_exit.
    by destruct (children w !! h).
  - unfold on_stdout_end.
    destruct (children w !! h) as [c|]; [|done]. by case_bool_decide.
  - unfold on_stderr_end.
    destruct (children w !! h) as [c|]; [|done]. by case_bool_decide.
  - unfold stopAgent.
    destruct (agentProcesses w !! roomName) as [agentInfo|]; [|done].
    by destruct (kill (process agentInfo)) as [[|]|].
  - unfold launch, generateAgentScript.
    destruct (write_script e); cbn; [|done].
    destruct (make_logDir e); cbn; [|by apply prefix_app_r].
    destruct (spawn_node e); cbn; [|by apply prefix_app_r].
    destruct (pipe_stdout e); [destruct (pipe_stderr e)|]; cbn;
      by apply prefix_app_r.
  - unfold promote.
    destruct (agentProcesses w !! roomName) as [agentInfo|]; [|done].
    by case_bool_decide.
Qed.

Lemma scripts_run actions w : scripts w `prefix_of` scripts (run actions w).
Proof.
  induction actions as [|a actions IH] using rev_ind; [done|].
  rewrite run_snoc. etrans; [exact IH|apply scripts_exec].
Qed.

Lemma promote_keeps roomName w :
  children (promote roomName w) = children w ∧
  scripts (promote roomName w) = scripts w ∧
  streams (promote roomName w) = streams w.
Proof.
  unfold promote.
  destruct (agentProcesses w !! roomName) as [agentInfo|]; [|done].
  by case_bool_decide.
Qed.

(** C3. Let the room have a record in a reachable world, and let the
    [exit] listener of the child of that record run, with any code and
    signal; the [exit] event of the child runs it whenever the launch of
    the child had registered its listeners.  Then the record is gone, the
    two log streams of the child are ended, and [isAgentRunning] is false.
    A later [startAgent] never answers [alreadyRunning].  When the room
    can be ensured, the file system and the spawn succeed and the new
    child can be piped, that call is a fresh launch: in the world [w1]
    where the room was ensured it writes a script, opens two log streams,
    spawns a child whose handle is that of no earlier child, the old one
    included, and sets the [Starting] record of that child with the pid of
    the spawn; it answers success with that pid, in the world that the
    grace period and the promotion make of this one.  When the call
    returns the new child is there under its handle and the new script
    follows those written before, and after a quiet grace period the room
    has the [Running] record of the new child. *)
Theorem exit_clears_room (history : list action) (roomName : string)
    (agentInfo : agent_info) (code : option Z) (signal : option string) :
  let w := run history empty_world in
  agentProcesses w !! roomName = Some agentInfo →
  let w' := on_exit (process agentInfo) code signal w in
  (listening (process agentInfo) w = true →
     exec (ChildExit (process agentInfo) code signal) w = w') ∧
  agentProcesses w' !! roomName = None ∧
  (∃ c s1 s2,
     children w !! process agentInfo = Some c ∧
     streams w' !! c_logStream c = Some s1 ∧ s_open s1 = false ∧
     streams w' !! c_errorLogStream c = Some s2 ∧ s_open s2 = false) ∧
  isAgentRunning w' roomName = false ∧
  ∀ e : start_env,
    StartResult.alreadyRunning (startAgent e roomName w').1 = None ∧
    ∀ (w1 : world) (child_pid : option Z),
      ensure_room e roomName w' = (Returns tt, w1) →
      write_script (launching e) = Returns tt →
      make_logDir (launching e) = Returns tt →
      spawn_node (launching e) = Returns child_pid →
      pipe_stdout (launching e) = Returns tt →
      pipe_stderr (launching e) = Returns tt →
      let fresh := length (children w1) in
      let script := script_name roomName (t_script (launching e)) in
      let spawned :=
        {| c_room := roomName; c_pid := child_pid;
           c_logStream := length (streams w1);
           c_errorLogStream := S (length (streams w1));
           c_wiring := Wired |} in
      let w2 :=
        {| agentProcesses :=
             <[roomName := {| process := fresh; status := Starting;
                              error := None; pid := default 0 child_pid;
                              startTime := t_start (launching e) |}]>
               (agentProcesses w1);
           children := children w1 ++ [spawned];
           scripts := scripts w1 ++ [script];
           streams :=
             streams w1 ++
               [ {| s_path := log_name roomName (t_log (launching e));
                    s_open := true |};
                 {| s_path := errorLog_name roomName (t_errorLog (launching e));
                    s_open := true |} ] |} in
      fresh ≠ process agentInfo ∧
      children w1 !! fresh = None ∧
      startAgent e roomName w' =
        ({| StartResult.success := true; StartResult.error := None;
            StartResult.pid := child_pid;
            StartResult.alreadyRunning := None |},
         promote roomName (run (during_grace e) w2)) ∧
      children (startAgent e roomName w').2 !! fresh = Some spawned ∧
      (∃ more, scripts (startAgent e roomName w').2 =
                 scripts w1 ++ script :: more) ∧
      (during_grace e = [] →
         agentProcesses (startAgent e roomName w').2 !! roomName =
           Some {| process := fresh; status := Running; error := None;
                   pid := default 0 child_pid;
                   startTime := t_start (launching e) |}).
Proof.
  intros w Hrec w'.
  assert (wf w) as [Hreg Hstr] by (apply wf_run, wf_empty).
  destruct (Hreg _ _ Hrec) as (c & Hc & Hroom & _).
  destruct (Hstr _ _ Hc) as [HS Hlt].
  assert (agentProcesses w' !! roomName = None) as Hgone.
  { subst w'. unfold on_exit. rewrite Hc. cbn. rewrite Hroom.
    apply lookup_delete_eq. }
  assert (isAgentRunning w' roomName = false) as Hrun
    by (unfold isAgentRunning; by rewrite Hgone).
  split_and!; [|done| |done|].
  - intros Hlistening. cbn. by rewrite Hlistening.
  - destruct (lookup_lt_is_Some_2 (streams w) (c_logStream c)) as [s1 Hs1];
      [lia|].
    destruct (lookup_lt_is_Some_2 (streams w) (c_errorLogStream c))
      as [s2 Hs2]; [lia|].
    exists c, (end_stream s1), (end_stream s2).
    subst w'. unfold on_exit. rewrite Hc. cbn. split_and!; try done.
    + rewrite list_lookup_alter_ne by lia.
      by rewrite list_lookup_alter_eq, Hs1.
    + rewrite list_lookup_alter_eq, list_lookup_alter_ne by lia.
      by rewrite Hs2.
  - intros e. split; [by apply startAgent_not_running|].
    intros w1 child_pid Hroom1 Hwrite Hdir Hspawn Hout Herr fresh script
      spawned w2.
    assert (startAgent e roomName w' =
              ({| StartResult.success := true; StartResult.error := None;
                  StartResult.pid := child_pid;
                  StartResult.alreadyRunning := None |},
               promote roomName (run (during_grace e) w2))) as Hstart.
    { unfold startAgent. rewrite Hrun, Hroom1.
      unfold launch_and_wait, launch, generateAgentScript.
      rewrite Hwrite. cbn. by rewrite Hdir, Hspawn, Hout, Herr. }
    rewrite Hstart. cbn [snd].
    destruct (promote_keeps roomName (run (during_grace e) w2))
      as (Hchildren & Hscripts & _).
    split_and!.
    + destruct (ensure_room_world e roomName w') as [actions Hw1].
      rewrite Hroom1 in Hw1. cbn in Hw1.
      pose proof (children_run_length actions w') as Hlen.
      rewrite <- Hw1 in Hlen.
      assert (children w' = children w) as Hsame
        by (subst w'; unfold on_exit; by rewrite Hc).
      rewrite Hsame in Hlen.
      apply lookup_lt_Some in Hc. subst fresh. lia.
    + by apply lookup_ge_None_2.
    + done.
    + rewrite Hchildren.
      destruct (children_run (during_grace e) w2) as [new ->].
      rewrite lookup_app_l.
      * subst w2 fresh. cbn. by apply list_lookup_middle.
      * subst w2 fresh. cbn. rewrite length_app. cbn. lia.
    + rewrite Hscripts.
      destruct (scripts_run (during_grace e) w2) as [more ->].
      subst w2. cbn. exists more. by rewrite <- app_assoc.
    + intros ->. cbn [run foldl]. unfold promote. subst w2.
      cbn [agentProcesses]. rewrite lookup_insert_eq. cbn [status].
      rewrite bool_decide_eq_true_2 by done.
      unfold set_agentProcesses. cbn [agentProcesses].
      by rewrite lookup_insert_eq.
Qed.

(** ** Uptime *)

(** A record found after an action, if its child was spawned before the
    action, was in the map before it, with the same child and the same
    start time. *)
Lemma exec_record_before a w roomName agentInfo' :
  agentProcesses (exec a w) !! roomName = Some agentInfo' →
  (process agentInfo' < length (children w))%nat →
  ∃ agentInfo, agentProcesses w !! roomName = Some agentInfo ∧
               process agentInfo = process agentInfo' ∧
               startTime agentInfo = startTime agentInfo'.
Proof.
  destruct a as [h message|h code signal|h|h|room kill|room e|room]; cbn.
  - destruct (listening h w); [|by eauto].
    unfold on_error. destruct (children w !! h) as [c|]; [|by eauto].
    destruct (agentProcesses w !! c_room c) as [agentInfo|] eqn:Hrec;
      [|by eauto].
    cbn. intros [[<- <-]|[Hne Hrec']]%lookup_insert_Some _; by eauto.
  - destruct (listening h w); [|by eauto].
    unfold on_exit. destruct (children w !! h) as [c|]; [|by eauto].
    cbn. intros [_ Hrec']%lookup_delete_Some _. by eauto.
  - unfold on_stdout_end. destruct (children w !! h) as [c|]; [|by eauto].
    case_bool_decide; by eauto.
  - unfold on_stderr_end. destruct (children w !! h) as [c|]; [|by eauto].
    case_bool_decide; by eauto.
  - unfold stopAgent.
    destruct (agentProcesses w !! room) as [agentInfo|]; [|by eauto].
    destruct (kill (process agentInfo)) as [[|]|]; cbn; [|by eauto..].
    intros [_ Hrec']%lookup_delete_Some _. by eauto.
  - unfold launch, generateAgentScript.
    destruct (write_script e); cbn; [|by eauto].
    destruct (make_logDir e); cbn; [|by eauto].
    destruct (spawn_node e); cbn; [|by eauto].
    destruct (pipe_stdout e); [destruct (pipe_stderr e)|]; cbn;
      (intros [[<- <-]|[Hne Hrec']]%lookup_insert_Some Hlt; cbn in *;
         [lia|by eauto]).
  - unfold promote.
    destruct (agentProcesses w !! room) as [agentInfo|] eqn:Hrec; [|by eauto].
    case_bool_decide; [|by eauto].
    cbn. intros [[<- <-]|[Hne Hrec']]%lookup_insert_Some _; by eauto.
Qed.

Lemma run_record_before actions w roomName agentInfo' :
  agentProcesses (run actions w) !! roomName = Some agentInfo' →
  (process agentInfo' < length (children w))%nat →
  ∃ agentInfo, agentProcesses w !! roomName = Some agentInfo ∧
               process agentInfo = process agentInfo' ∧
               startTime agentInfo = startTime agentInfo'.
Proof.
  revert agentInfo'.
  induction actions as [|a actions IH] using rev_ind; intros agentInfo'.
  - by eauto.
  - rewrite run_snoc. intros Hrec' Hlt.
    destruct (exec_record_before a (run actions w) roomName agentInfo' Hrec')
      as (mid & Hmid & Hproc & Htime).
    { pose proof (children_run_length actions w). lia. }
    destruct (IH mid Hmid) as (agentInfo & Hrec & Hproc' & Htime');
      [lia|].
    exists agentInfo. split_and!; [done|congruence..].
Qed.

Lemma uptime_floor t w roomName agentInfo :
  agentProcesses w !! roomName = Some agentInfo →
  ∃ u, AgentStatus.uptime (getAgentStatus t w roomName) = Some u ∧
       1000 * u ≤ t - startTime agentInfo < 1000 * u + 1000.
Proof.
  intros Hrec. exists ((t - startTime agentInfo) `div` 1000). split.
  - unfold getAgentStatus. by rewrite Hrec.
  - pose proof (Z.mul_div_le (t - startTime agentInfo) 1000).
    pose proof (Z.mul_succ_div_gt (t - startTime agentInfo) 1000). lia.
Qed.

(** C9. [getAgentStatus] reports no uptime for a room without record.
    For a room with a record it reports the whole seconds of
    [t - startTime], rounded down.  Take two queries, the second at a
    later reading of the clock and after any further activity, such that
    the room still has the record of the same child; with a clock that
    never ran backwards since the start time was read, the first uptime
    is not negative and the second is not smaller than the first. *)
Theorem uptime_floor_monotone (history later : list action)
    (roomName : string) (agentInfo agentInfo' : agent_info) (t t' : Z) :
  let w := run history empty_world in
  let w' := run later w in
  (∀ (t0 : Z) (w0 : world),
     agentProcesses w0 !! roomName = None →
     AgentStatus.uptime (getAgentStatus t0 w0 roomName) = None) ∧
  (∀ (t0 : Z) (w0 : world) (a : agent_info),
     agentProcesses w0 !! roomName = Some a →
     ∃ u, AgentStatus.uptime (getAgentStatus t0 w0 roomName) = Some u ∧
          1000 * u ≤ t0 - startTime a < 1000 * u + 1000) ∧
  (agentProcesses w !! roomName = Some agentInfo →
   agentProcesses w' !! roomName = Some agentInfo' →
   process agentInfo' = process agentInfo →
   startTime agentInfo ≤ t → t ≤ t' →
   ∃ u u',
     AgentStatus.uptime (getAgentStatus t w roomName) = Some u ∧
     AgentStatus.uptime (getAgentStatus t' w' roomName) = Some u' ∧
     0 ≤ u ∧ u ≤ u').
Proof.
  intros w w'. split_and!.
  - intros t0 w0 Hnone. unfold getAgentStatus. by rewrite Hnone.
  - intros t0 w0 a. apply uptime_floor.
  - intros Hrec Hrec' Hproc Hstart Hclock.
    assert (wf w) as [Hreg _] by (apply wf_run, wf_empty).
    destruct (Hreg _ _ Hrec) as (c & Hc%lookup_lt_Some & _).
    destruct (run_record_before later w roomName agentInfo' Hrec')
      as (same & Hsame & _ & Htime); [by rewrite Hproc|].
    assert (same = agentInfo) as -> by congruence.
    exists ((t - startTime agentInfo) `div` 1000),
           ((t' - startTime agentInfo) `div` 1000).
    split_and!.
    + unfold getAgentStatus. by rewrite Hrec.
    + unfold getAgentStatus. by rewrite Hrec', <- Htime.
    + apply Z.div_pos; lia.
    + apply Z.div_le_mono; lia.
Qed.

(** ** Presence check *)

Lemma roomExists_configured lk roomName :
  roomExists lk roomName = true → configured lk = true.
Proof.
  unfold roomExists, getRoom, getLivekitClient.
  by destruct (configured lk).
Qed.

Section PresenceProperties.

Variable JSON_parse : string → outcome json.

Lemma inspect_counts p :
  match inspect JSON_parse p with
  | Returns b => b
  | Throws _ => false
  end = counts_as_agent JSON_parse p.
Proof.
  unfold inspect, counts_as_agent, invalid_metadata, spec_is_agent,
    has_agent_flag.
  destruct (String.eqb (metadata p) ""); cbn; [done|].
  destruct (JSON_parse (metadata p)) as [md|m]; [|done].
  destruct md; cbn; try done.
  by destruct (truthy _).
Qed.

Lemma scan_existsb participants :
  scan JSON_parse participants = existsb (counts_as_agent JSON_parse) participants.
Proof.
  induction participants as [|p rest IH]; [done|].
  cbn. rewrite <- inspect_counts, <- IH.
  by destruct (inspect JSON_parse p) as [[|]|].
Qed.

(** When the list of participants cannot be had, the answer is the
    random draw against 0.7. *)
Lemma checkAgentInRoom_query_failed lk draw roomName listParticipants m :
  roomExists lk roomName = true →
  sdk_listParticipants lk = Some listParticipants →
  listParticipants roomName = Throws m →
  checkAgentInRoom JSON_parse lk draw roomName = random_state draw.
Proof.
  intros Hroom Hlist Hthrow. unfold checkAgentInRoom, initLivekitClient.
  rewrite Hroom, (roomExists_configured _ _ Hroom), Hlist. cbn.
  by rewrite Hthrow.
Qed.

(** C8, as the code has it.  For a room the service does not know the
    check answers [false].  For a known room whose participants are
    listed it answers [true] exactly when some participant counts: one
    whose metadata, if given, is valid and not [null], and who carries
    the [isAgent] flag or has an identity of an agent; so it is [true]
    whatever follows the first such participant, and [false] when there
    is none.  Without a [listParticipants] method it answers [false]. *)
Theorem presence_check_counts (lk : livekit) (draw : Q) (roomName : string) :
  (roomExists lk roomName = false →
     checkAgentInRoom JSON_parse lk draw roomName = false) ∧
  (roomExists lk roomName = true →
     (sdk_listParticipants lk = None →
        checkAgentInRoom JSON_parse lk draw roomName = false) ∧
     (∀ listParticipants participants,
        sdk_listParticipants lk = Some listParticipants →
        listParticipants roomName = Returns participants →
        checkAgentInRoom JSON_parse lk draw roomName =
          existsb (counts_as_agent JSON_parse) participants ∧
        (∀ before p after,
           participants = before ++ p :: after →
           counts_as_agent JSON_parse p = true →
           checkAgentInRoom JSON_parse lk draw roomName = true) ∧
        ((∀ p, p ∈ participants → counts_as_agent JSON_parse p = false) →
           checkAgentInRoom JSON_parse lk draw roomName = false))).
Proof.
  split.
  - intros Hroom. unfold checkAgentInRoom. by rewrite Hroom.
  - intros Hroom.
    assert (∀ listParticipants participants,
      sdk_listParticipants lk = Some listParticipants →
      listParticipants roomName = Returns participants →
      checkAgentInRoom JSON_parse lk draw roomName =
        existsb (counts_as_agent JSON_parse) participants) as Hscan.
    { intros listParticipants participants Hlist Hps.
      unfold checkAgentInRoom, initLivekitClient.
      rewrite Hroom, (roomExists_configured _ _ Hroom), Hlist. cbn.
      rewrite Hps. apply scan_existsb. }
    split.
    + intros Hnone. unfold checkAgentInRoom, initLivekitClient.
      by rewrite Hroom, (roomExists_configured _ _ Hroom), Hnone.
    + intros listParticipants participants Hlist Hps.
      rewrite (Hscan _ _ Hlist Hps). split_and!; [done| |].
      * intros before p after -> Hp. rewrite existsb_app. cbn.
        rewrite Hp. by rewrite orb_true_r.
      * intros Hnone. apply not_true_is_false.
        intros (p & Hin & Hp)%existsb_exists.
        apply list_elem_of_In in Hin. rewrite (Hnone p Hin) in Hp. done.
Qed.

End PresenceProperties.

(** C8, as the claim has it, fails: a participant without agent flag
    whose identity starts with [agent-] is the only one listed in a known
    room, and the check answers [false], because its metadata is not
    JSON. *)
Lemma presence_check_skips_invalid_metadata :
  let lk := service_listing (Returns [broken_agent]) in
  roomExists lk study = true ∧
  has_agent_flag JSON_parse_sample broken_agent = false ∧
  agent_identity (identity broken_agent) = true ∧
  spec_is_agent JSON_parse_sample broken_agent = true ∧
  checkAgentInRoom JSON_parse_sample lk 0%Q study = false.
Proof. by vm_compute. Qed.

Lemma presence_check_counts_witness :
  let participants := [broken_agent; {| identity := "my-bot"; metadata := "" |}] in
  let lk := service_listing (Returns participants) in
  roomExists lk study = true ∧
  checkAgentInRoom JSON_parse_sample lk 0%Q study =
    existsb (counts_as_agent JSON_parse_sample) participants ∧
  checkAgentInRoom JSON_parse_sample lk 0%Q study = true.
Proof.
  intros participants lk.
  destruct (presence_check_counts JSON_parse_sample lk 0%Q study)
    as [_ Hknown].
  destruct (Hknown eq_refl) as [_ Hlisted].
  destruct (Hlisted (λ _, Returns participants) participants eq_refl eq_refl)
    as (Hexists & Hfirst & _).
  split_and!; [reflexivity|exact Hexists|].
  exact (Hfirst [broken_agent] {| identity := "my-bot"; metadata := "" |} []
           eq_refl eq_refl).
Defined.

(** C1, at a failing input: the room is known and [listParticipants]
    rejects.  The check answers [true] on one draw and [false] on
    another, and [getFullAgentStatus] passes the [true] on as
    [agentInRoom], although no participant was seen. *)
Theorem presence_check_random_on_query_failure :
  let lk := service_listing (Throws "fetch failed") in
  roomExists lk study = true ∧
  checkAgentInRoom JSON_parse_sample lk (9 # 10)%Q study = true ∧
  checkAgentInRoom JSON_parse_sample lk (1 # 10)%Q study = false ∧
  FullStatus.agentInRoom
    (getFullAgentStatus JSON_parse_sample 0 lk (9 # 10)%Q empty_world study) = true.
Proof. by vm_compute. Qed.

(** ** Spawn errors *)

(** Once the launch has returned, with a child that is registered and
    wired, the call answers success, whatever the child emits during the
    grace period. *)
Lemma launch_and_wait_success e roomName w h child_pid w1 :
  launch (launching e) roomName w = (Returns (h, child_pid), w1) →
  (launch_and_wait e roomName w).1 =
    {| StartResult.success := true; StartResult.error := None;
       StartResult.pid := child_pid; StartResult.alreadyRunning := None |}.
Proof. intros Hlaunch. unfold launch_and_wait. by rewrite Hlaunch. Qed.

(** When [spawn] throws, the call answers failure with the message and
    the map is as before the launch. *)
Lemma launch_spawn_throws e roomName w m :
  write_script e = Returns tt → make_logDir e = Returns tt →
  spawn_node e = Throws m →
  (launch e roomName w).1 = Throws m ∧
  agentProcesses (launch e roomName w).2 = agentProcesses w.
Proof.
  intros Hwrite Hdir Hspawn. unfold launch, generateAgentScript.
  by rewrite Hwrite, Hdir, Hspawn.
Qed.

(** C6, at a failing input: [spawn] gives a child without pid, which
    emits [error] during the grace period.  The record of the room ends
    in [Error] with the message and does not count as running, but the
    call answers [success: true]. *)
Theorem startAgent_spawn_error_answers_success :
  let r := startAgent failing_start study empty_world in
  StartResult.success r.1 = true ∧
  StartResult.error r.1 = None ∧
  StartResult.pid r.1 = None ∧
  agentProcesses r.2 !! study =
    Some {| process := 0%nat; status := Error;
            error := Some "spawn node EACCES"; pid := 0;
            startTime := 1700000000002 |} ∧
  isAgentRunning r.2 study = false.
Proof. by vm_compute. Qed.

(** ** The theorems at sample inputs *)

Lemma startAgent_already_running_witness :
  agentProcesses sample_world !! study = Some sample_record ∧
  status sample_record ≠ Error ∧
  startAgent sample_start study sample_world =
    ({| StartResult.success := true; StartResult.error := None;
        StartResult.pid := Some 4242;
        StartResult.alreadyRunning := Some true |}, sample_world).
Proof.
  assert (agentProcesses sample_world !! study = Some sample_record) as Hrec
    by reflexivity.
  assert (status sample_record ≠ Error) as Hstatus by discriminate.
  split_and!; [exact Hrec|exact Hstatus|].
  exact (startAgent_already_running sample_start study sample_world
           sample_record Hrec Hstatus).
Defined.

Lemma stopAgent_outcomes_witness :
  stopAgent (λ _, Returns true) "nonexistent" sample_world = (false, sample_world) ∧
  (stopAgent (λ _, Returns true) study sample_world).1 = true ∧
  agentProcesses (stopAgent (λ _, Returns true) study sample_world).2 !! study = None ∧
  stopAgent (λ _, Returns false) study sample_world = (false, sample_world) ∧
  stopAgent (λ _, Throws "kill ESRCH") study sample_world = (false, sample_world).
Proof.
  assert (agentProcesses sample_world !! study = Some sample_record) as Hrec
    by reflexivity.
  split_and!.
  - apply (stopAgent_outcomes (λ _, Returns true) "nonexistent" sample_world).
    reflexivity.
  - apply (stopAgent_outcomes (λ _, Returns true) study sample_world)
      with sample_record; [exact Hrec|reflexivity].
  - apply (stopAgent_outcomes (λ _, Returns true) study sample_world)
      with sample_record; [exact Hrec|reflexivity].
  - apply (stopAgent_outcomes (λ _, Returns false) study sample_world)
      with sample_record; [exact Hrec|]. left. reflexivity.
  - apply (stopAgent_outcomes (λ _, Throws "kill ESRCH") study sample_world)
      with sample_record; [exact Hrec|]. right. eexists. reflexivity.
Defined.

Lemma exit_clears_room_witness :
  let w' := exec (ChildExit 0 (Some 1) None) sample_world in
  let next := startAgent sample_start study w' in
  agentProcesses sample_world !! study = Some sample_record ∧
  agentProcesses w' !! study = None ∧
  isAgentRunning w' study = false ∧
  next.1 =
    {| StartResult.success := true; StartResult.error := None;
       StartResult.pid := Some 4242; StartResult.alreadyRunning := None |} ∧
  children next.2 !! 1%nat =
    Some {| c_room := study; c_pid := Some 4242; c_logStream := 2;
            c_errorLogStream := 3; c_wiring := Wired |} ∧
  agentProcesses next.2 !! study =
    Some {| process := 1%nat; status := Running; error := None; pid := 4242;
            startTime := 1700000000002 |}.
Proof.
  intros w' next.
  assert (agentProcesses sample_world !! study = Some sample_record) as Hrec
    by reflexivity.
  destruct (exit_clears_room sample_history study sample_record (Some 1) None
              Hrec) as (Hevent & Hgone & _ & Hrun & Hnext).
  destruct (Hnext sample_start) as [_ Hlaunch].
  destruct (Hlaunch w' (Some 4242) eq_refl eq_refl eq_refl eq_refl eq_refl
              eq_refl)
    as (_ & _ & Hanswer & Hchild & _ & Hrecord).
  split_and!; [exact Hrec|exact Hgone|exact Hrun| | |].
  - subst next. exact (f_equal fst Hanswer).
  - exact Hchild.
  - exact (Hrecord eq_refl).
Defined.

Lemma grace_period_promotion_witness :
  let w1 := (launch sample_launch study empty_world).2 in
  launch (launching sample_start) study empty_world =
    (Returns (0%nat, Some 4242), w1) ∧
  agentProcesses (run (during_grace sample_start) w1) !! study =
    Some (set_status Starting sample_record) ∧
  agentProcesses (launch_and_wait sample_start study empty_world).2 !! study =
    Some sample_record.
Proof.
  intros w1.
  assert (launch (launching sample_start) study empty_world =
            (Returns (0%nat, Some 4242), w1)) as Hlaunch by reflexivity.
  destruct (grace_period_promotion sample_start study empty_world w1 0
              (Some 4242) Hlaunch) as (Hrecord & _ & _).
  destruct (Hrecord (set_status Starting sample_record) eq_refl)
    as [Hpromoted _].
  destruct Hpromoted as [Hrunning _]; [discriminate|].
  split_and!; [exact Hlaunch|reflexivity|exact Hrunning].
Defined.

Lemma uptime_floor_monotone_witness :
  let w := run sample_history empty_world in
  let w' := run [ChildError 0 "late failure"] w in
  agentProcesses w !! study = Some sample_record ∧
  agentProcesses w' !! study = Some errored_record ∧
  process errored_record = process sample_record ∧
  startTime sample_record ≤ 1700000003500 ∧
  1700000003500 ≤ 1700000010000 ∧
  ∃ u u',
    AgentStatus.uptime (getAgentStatus 1700000003500 w study) = Some u ∧
    AgentStatus.uptime (getAgentStatus 1700000010000 w' study) = Some u' ∧
    0 ≤ u ∧ u ≤ u'.
Proof.
  intros w w'.
  assert (agentProcesses w !! study = Some sample_record) as Hrec
    by reflexivity.
  assert (agentProcesses w' !! study = Some errored_record) as Hrec'
    by reflexivity.
  assert (startTime sample_record ≤ 1700000003500) as Hstart by (cbn; lia).
  assert (1700000003500 ≤ 1700000010000) as Hclock by lia.
  destruct (uptime_floor_monotone sample_history [ChildError 0 "late failure"]
              study sample_record errored_record 1700000003500 1700000010000)
    as (_ & _ & Hmono).
  split_and!; [exact Hrec|exact Hrec'|reflexivity|exact Hstart|exact Hclock|].
  exact (Hmono Hrec Hrec' eq_refl Hstart Hclock).
Defined.

(** ** The walk through one room *)

(** [study] has no record; it is started and is [Running] after the
    grace period with the pid of the spawn; its process exits; the local
    status is then [{running: false}]. *)
Example study_scenario :
  let started := startAgent sample_start study empty_world in
  let exited := on_exit 0 (Some 0) None started.2 in
  agentProcesses empty_world !! study = None ∧
  StartResult.success started.1 = true ∧
  StartResult.pid started.1 = Some 4242 ∧
  agentProcesses started.2 !! study = Some sample_record ∧
  scripts started.2 = ["agent-study-1-1700000000000.js"] ∧
  FullStatus.localProcessRunning
    (getFullAgentStatus JSON_parse_sample 1700000005000 sample_service 0%Q
       started.2 study) = true ∧
  agentProcesses exited !! study = None ∧
  getAgentStatus 1700000009000 exited study =
    {| AgentStatus.running := false; AgentStatus.pid := None;
       AgentStatus.status := None; AgentStatus.error := None;
       AgentStatus.uptime := None |}.
Proof. by vm_compute. Qed.

(** * Further properties of the registry *)

(** ** What the map says about the children *)

(** X1.  In every reachable world a record of a room points to a child that
    was spawned for that room, the pid of the record is the pid of that
    child, or 0 if the spawn gave none, and this is the pid the status
    query reports.  The worlds the facade makes are reachable. *)
Theorem registry_points_to_child (w : world) (roomName : string)
    (agentInfo : agent_info) (t : Z) :
  reachable w →
  agentProcesses w !! roomName = Some agentInfo →
  (∃ c, children w !! process agentInfo = Some c ∧ c_room c = roomName ∧
        pid agentInfo = default 0 (c_pid c) ∧
        AgentStatus.pid (getAgentStatus t w roomName) =
          Some (default 0 (c_pid c))) ∧
  (∀ e room, reachable (startAgent e room w).2) ∧
  (∀ kill room, reachable (stopAgent kill room w).2).
Proof.
  intros Hreach Hrec. split_and!.
  - destruct (wf_reachable w Hreach) as [Hreg _].
    destruct (Hreg _ _ Hrec) as (c & Hc & Hroom & Hpid).
    exists c. split_and!; try done.
    unfold getAgentStatus. rewrite Hrec. cbn. by rewrite Hpid.
  - intros e room. by apply startAgent_reachable.
  - intros kill room. by apply stopAgent_reachable.
Qed.

Lemma registry_points_to_child_witness :
  reachable sample_world ∧
  agentProcesses sample_world !! study = Some sample_record ∧
  ∃ c, children sample_world !! process sample_record = Some c ∧
       c_room c = study ∧
       pid sample_record = default 0 (c_pid c) ∧
       AgentStatus.pid (getAgentStatus 1700000005000 sample_world study) =
         Some (default 0 (c_pid c)).
Proof.
  assert (reachable sample_world) as Hreach by (by exists sample_history).
  assert (agentProcesses sample_world !! study = Some sample_record) as Hrec
    by reflexivity.
  split_and!; [exact Hreach|exact Hrec|].
  exact (proj1 (registry_points_to_child sample_world study sample_record
                  1700000005000 Hreach Hrec)).
Defined.

(** ** Error detail *)

Lemma error_marked_exec a w : error_marked w → error_marked (exec a w).
Proof.
  intros Hw roomName rec.
  destruct a as [h message|h code signal|h|h|room kill|room e|room]; cbn.
  - destruct (listening h w); [|by apply Hw].
    unfold on_error. destruct (children w !! h) as [c|]; [|by apply Hw].
    destruct (agentProcesses w !! c_room c) as [agentInfo|]; [|by apply Hw].
    cbn. intros [[<- <-]|[_ Hrec]]%lookup_insert_Some; cbn.
    + split; [by eauto|done].
    + exact (Hw _ _ Hrec).
  - destruct (listening h w); [|by apply Hw].
    unfold on_exit. destruct (children w !! h) as [c|]; [|by apply Hw].
    cbn. intros [_ Hrec]%lookup_delete_Some. exact (Hw _ _ Hrec).
  - unfold on_stdout_end. destruct (children w !! h) as [c|]; [|by apply Hw].
    case_bool_decide; by apply Hw.
  - unfold on_stderr_end. destruct (children w !! h) as [c|]; [|by apply Hw].
    case_bool_decide; by apply Hw.
  - unfold stopAgent.
    destruct (agentProcesses w !! room) as [agentInfo|]; [|by apply Hw].
    destruct (kill (process agentInfo)) as [[|]|]; cbn; [|by apply Hw..].
    intros [_ Hrec]%lookup_delete_Some. exact (Hw _ _ Hrec).
  - unfold launch, generateAgentScript.
    destruct (write_script e); cbn; [|by apply Hw].
    destruct (make_logDir e); cbn; [|by apply Hw].
    destruct (spawn_node e); cbn; [|by apply Hw].
    destruct (pipe_stdout e); [destruct (pipe_stderr e)|]; cbn;
      (intros [[<- <-]|[_ Hrec]]%lookup_insert_Some; cbn;
         [split; [done|]; by intros [? ?]|exact (Hw _ _ Hrec)]).
  - unfold promote.
    destruct (agentProcesses w !! room) as [agentInfo|] eqn:Hinfo;
      [|by apply Hw].
    case_bool_decide as Hstatus; [|by apply Hw].
    cbn. intros [[<- <-]|[_ Hrec]]%lookup_insert_Some; cbn.
    + split; [done|]. intros Hsome. by apply (Hw _ _ Hinfo) in Hsome.
    + exact (Hw _ _ Hrec).
Qed.

Lemma error_marked_run actions w : error_marked w → error_marked (run actions w).
Proof.
  induction actions as [|a actions IH] using rev_ind; [done|].
  intros Hw. rewrite run_snoc. by apply error_marked_exec, IH.
Qed.

(** X2.  In every reachable world a record carries an error message exactly
    when its status is [Error]; so the status query shows a message
    exactly for the rooms it reports as present and not running. *)
Theorem error_detail_iff_error_status (history : list action)
    (roomName : string) (t : Z) :
  let w := run history empty_world in
  (∀ agentInfo, agentProcesses w !! roomName = Some agentInfo →
     (status agentInfo = Error ↔ is_Some (error agentInfo))) ∧
  (is_Some (AgentStatus.error (getAgentStatus t w roomName)) ↔
   is_Some (agentProcesses w !! roomName) ∧ isAgentRunning w roomName = false).
Proof.
  intros w.
  assert (error_marked w) as Hmarked.
  { apply error_marked_run. intros r a H. cbn in H.
    by rewrite lookup_empty in H. }
  split; [exact (Hmarked roomName)|].
  unfold getAgentStatus, isAgentRunning.
  destruct (agentProcesses w !! roomName) as [agentInfo|] eqn:Hrec; cbn.
  - rewrite <- (Hmarked _ _ Hrec). split.
    + intros Hstatus. split; [by eauto|].
      apply bool_decide_eq_false_2. by intros [].
    + intros [_ Hstatus%bool_decide_eq_false].
      destruct (decide (status agentInfo = Error)); [done|by destruct Hstatus].
  - split; [by intros [? ?]|by intros [[? ?] _]].
Qed.

(** ** The lifecycle of a record *)

Lemma exec_status_before a w roomName agentInfo' :
  agentProcesses (exec a w) !! roomName = Some agentInfo' →
  (process agentInfo' < length (children w))%nat →
  ∃ agentInfo, agentProcesses w !! roomName = Some agentInfo ∧
               process agentInfo = process agentInfo' ∧
               pid agentInfo = pid agentInfo' ∧
               (status_rank (status agentInfo) ≤
                  status_rank (status agentInfo'))%nat.
Proof.
  destruct a as [h message|h code signal|h|h|room kill|room e|room]; cbn.
  - destruct (listening h w); [|by eauto].
    unfold on_error. destruct (children w !! h) as [c|]; [|by eauto].
    destruct (agentProcesses w !! c_room c) as [agentInfo|] eqn:Hrec;
      [|by eauto].
    cbn. intros [[<- <-]|[Hne Hrec']]%lookup_insert_Some _; [|by eauto].
    exists agentInfo. split_and!; try done. cbn.
    destruct (status agentInfo); cbn; lia.
  - destruct (listening h w); [|by eauto].
    unfold on_exit. destruct (children w !! h) as [c|]; [|by eauto].
    cbn. intros [_ Hrec']%lookup_delete_Some _. by eauto.
  - unfold on_stdout_end. destruct (children w !! h) as [c|]; [|by eauto].
    case_bool_decide; by eauto.
  - unfold on_stderr_end. destruct (children w !! h) as [c|]; [|by eauto].
    case_bool_decide; by eauto.
  - unfold stopAgent.
    destruct (agentProcesses w !! room) as [agentInfo|]; [|by eauto].
    destruct (kill (process agentInfo)) as [[|]|]; cbn; [|by eauto..].
    intros [_ Hrec']%lookup_delete_Some _. by eauto.
  - unfold launch, generateAgentScript.
    destruct (write_script e); cbn; [|by eauto].
    destruct (make_logDir e); cbn; [|by eauto].
    destruct (spawn_node e); cbn; [|by eauto].
    destruct (pipe_stdout e); [destruct (pipe_stderr e)|]; cbn;
      (intros [[<- <-]|[Hne Hrec']]%lookup_insert_Some Hlt; cbn in *;
         [lia|by eauto]).
  - unfold promote.
    destruct (agentProcesses w !! room) as [agentInfo|] eqn:Hrec; [|by eauto].
    case_bool_decide as Hstatus; [|by eauto].
    cbn. intros [[<- <-]|[Hne Hrec']]%lookup_insert_Some _; [|by eauto].
    exists agentInfo. split_and!; try done. cbn.
    destruct (status agentInfo); cbn; try lia. done.
Qed.

Lemma run_status_before actions w roomName agentInfo' :
  agentProcesses (run actions w) !! roomName = Some agentInfo' →
  (process agentInfo' < length (children w))%nat →
  ∃ agentInfo, agentProcesses w !! roomName = Some agentInfo ∧
               process agentInfo = process agentInfo' ∧
               pid agentInfo = pid agentInfo' ∧
               (status_rank (status agentInfo) ≤
                  status_rank (status agentInfo'))%nat.
Proof.
  revert agentInfo'.
  induction actions as [|a actions IH] using rev_ind; intros agentInfo'.
  - by eauto.
  - rewrite run_snoc. intros Hrec' Hlt.
    destruct (exec_status_before a (run actions w) roomName agentInfo' Hrec')
      as (mid & Hmid & Hproc & Hpid & Hrank).
    { pose proof (children_run_length actions w). lia. }
    destruct (IH mid Hmid) as (agentInfo & Hrec & Hproc' & Hpid' & Hrank');
      [lia|].
    exists agentInfo. split_and!; [done|congruence..|lia].
Qed.

(** X3.  As long as a room keeps the record of one child, the status of the
    record only moves forward, from [Starting] to [Running] to [Error]:
    an [Error] stays, a [Running] never is [Starting] again; and the pid
    stays the same.  This holds from every reachable world on, whatever
    runs on the event loop. *)
Theorem status_only_advances (history later : list action)
    (roomName : string) (agentInfo agentInfo' : agent_info) :
  let w := run history empty_world in
  let w' := run later w in
  agentProcesses w !! roomName = Some agentInfo →
  agentProcesses w' !! roomName = Some agentInfo' →
  process agentInfo' = process agentInfo →
  (status_rank (status agentInfo) ≤ status_rank (status agentInfo'))%nat ∧
  (status agentInfo = Error → status agentInfo' = Error) ∧
  (status agentInfo = Running → status agentInfo' ≠ Starting) ∧
  pid agentInfo' = pid agentInfo.
Proof.
  intros w w' Hrec Hrec' Hproc.
  assert (wf w) as [Hreg _] by (apply wf_run, wf_empty).
  destruct (Hreg _ _ Hrec) as (c & Hc%lookup_lt_Some & _).
  destruct (run_status_before later w roomName agentInfo' Hrec')
    as (same & Hsame & _ & Hpid & Hrank); [by rewrite Hproc|].
  assert (same = agentInfo) as -> by congruence.
  split_and!; [done| | |done].
  - intros Hs. rewrite Hs in Hrank. by destruct (status agentInfo'); cbn in *; try lia.
  - intros Hs Hs'. rewrite Hs, Hs' in Hrank. cbn in Hrank. lia.
Qed.

Lemma status_only_advances_witness :
  let w := run sample_history empty_world in
  let w' := run [ChildError 0 "late failure"; Promote study] w in
  agentProcesses w !! study = Some sample_record ∧
  agentProcesses w' !! study = Some errored_record ∧
  (status_rank (status sample_record) ≤
     status_rank (status errored_record))%nat ∧
  pid errored_record = pid sample_record.
Proof.
  intros w w'.
  assert (agentProcesses w !! study = Some sample_record) as Hrec
    by reflexivity.
  assert (agentProcesses w' !! study = Some errored_record) as Hrec'
    by reflexivity.
  destruct (status_only_advances sample_history
              [ChildError 0 "late failure"; Promote study] study
              sample_record errored_record Hrec Hrec' eq_refl)
    as (Hrank & _ & _ & Hpid).
  split_and!; [exact Hrec|exact Hrec'|exact Hrank|exact Hpid].
Defined.

(** ** Artifacts *)

Lemma alter_end_stream j (l : list log_stream) i s :
  l !! i = Some s →
  ∃ s', alter end_stream j l !! i = Some s' ∧ s_path s' = s_path s ∧
        (s_open s = false → s_open s' = false).
Proof.
  intros Hs. destruct (decide (j = i)) as [->|Hne].
  - exists (end_stream s). by rewrite list_lookup_alter_eq, Hs.
  - exists s. by rewrite list_lookup_alter_ne.
Qed.

Lemma artifacts_exec a w :
  scripts w `prefix_of` scripts (exec a w) ∧
  (∀ i s, streams w !! i = Some s →
     ∃ s', streams (exec a w) !! i = Some s' ∧ s_path s' = s_path s ∧
           (s_open s = false → s_open s' = false)).
Proof.
  destruct a as [h message|h code signal|h|h|room kill|room e|room]; cbn.
  - destruct (listening h w); [|by eauto].
    unfold on_error. destruct (children w !! h) as [c|]; [|by eauto].
    destruct (agentProcesses w !! c_room c); by eauto.
  - destruct (listening h w); [|by eauto].
    unfold on_exit. destruct (children w !! h) as [c|]; [|by eauto].
    cbn. split; [done|]. intros i s Hs.
    destruct (alter_end_stream (c_logStream c) _ _ _ Hs)
      as (s1 & Hs1 & Hpath1 & Hopen1).
    destruct (alter_end_stream (c_errorLogStream c) _ _ _ Hs1)
      as (s2 & Hs2 & Hpath2 & Hopen2).
    exists s2. split_and!; [done|congruence|by auto].
  - unfold on_stdout_end. destruct (children w !! h) as [c|]; [|by eauto].
    case_bool_decide; [|by eauto].
    cbn. split; [done|]. intros i s Hs.
    by apply alter_end_stream.
  - unfold on_stderr_end. destruct (children w !! h) as [c|]; [|by eauto].
    case_bool_decide; [|by eauto].
    cbn. split; [done|]. intros i s Hs.
    by apply alter_end_stream.
  - unfold stopAgent.
    destruct (agentProcesses w !! room) as [agentInfo|]; [|by eauto].
    destruct (kill (process agentInfo)) as [[|]|]; cbn; by eauto.
  - unfold launch, generateAgentScript.
    destruct (write_script e); cbn; [|by eauto].
    destruct (make_logDir e); cbn.
    + assert (∀ i s more, streams w !! i = Some s →
                ∃ s', (streams w ++ more) !! i = Some s' ∧
                      s_path s' = s_path s ∧
                      (s_open s = false → s_open s' = false)) as Hkeep.
      { intros i s more Hs. exists s. split; [|done].
        rewrite lookup_app_l; [done|]. by eapply lookup_lt_Some. }
      destruct (spawn_node e); cbn;
        [destruct (pipe_stdout e); [destruct (pipe_stderr e)|]; cbn|];
        (split; [by apply prefix_app_r|by eauto]).
    + split; [by apply prefix_app_r|by eauto].
  - unfold promote.
    destruct (agentProcesses w !! room) as [agentInfo|]; [|by eauto].
    case_bool_decide; by eauto.
Qed.

(** X4.  Nothing the service does removes a script it wrote or reopens a log
    stream: whatever runs, the scripts written so far stay a prefix of
    the list of scripts, and each log stream keeps its path and, once
    ended, stays ended. *)
Theorem artifacts_are_kept (actions : list action) (w : world) :
  scripts w `prefix_of` scripts (run actions w) ∧
  (∀ i s, streams w !! i = Some s →
     ∃ s', streams (run actions w) !! i = Some s' ∧ s_path s' = s_path s ∧
           (s_open s = false → s_open s' = false)).
Proof.
  induction actions as [|a actions [IHscripts IHstreams]] using rev_ind.
  - split; [done|]. by eauto.
  - rewrite run_snoc.
    destruct (artifacts_exec a (run actions w)) as [Hscripts Hstreams].
    split; [by etrans|].
    intros i s Hs. destruct (IHstreams i s Hs) as (s1 & Hs1 & Hpath1 & Hopen1).
    destruct (Hstreams i s1 Hs1) as (s2 & Hs2 & Hpath2 & Hopen2).
    exists s2. split_and!; [done|congruence|by auto].
Qed.

(** Streams no child owns stay as they are. *)
Lemma unowned_streams_exec i s1 s2 a w :
  unowned_streams i s1 s2 w → unowned_streams i s1 s2 (exec a w).
Proof.
  intros (Hchildren & Hlen & Hs1 & Hs2).
  destruct a as [h message|h code signal|h|h|room kill|room e|room]; cbn.
  - destruct (listening h w); [|done].
    unfold on_error. destruct (children w !! h) as [c|]; [|done].
    by destruct (agentProcesses w !! c_room c).
  - destruct (listening h w); [|done].
    unfold on_exit. destruct (children w !! h) as [c|] eqn:Hc; [|done].
    destruct (Hchildren _ _ Hc) as [HS Hrange].
    split_and!; cbn; [done|by rewrite !length_alter|..].
    + rewrite !list_lookup_alter_ne by lia. done.
    + rewrite !list_lookup_alter_ne by lia. done.
  - unfold on_stdout_end. destruct (children w !! h) as [c|] eqn:Hc; [|done].
    case_bool_decide; [|done].
    destruct (Hchildren _ _ Hc) as [HS Hrange].
    split_and!; cbn; [done|by rewrite !length_alter|..].
    + rewrite !list_lookup_alter_ne by lia. done.
    + rewrite !list_lookup_alter_ne by lia. done.
  - unfold on_stderr_end. destruct (children w !! h) as [c|] eqn:Hc; [|done].
    case_bool_decide; [|done].
    destruct (Hchildren _ _ Hc) as [HS Hrange].
    split_and!; cbn; [done|by rewrite !length_alter|..].
    + rewrite !list_lookup_alter_ne by lia. done.
    + rewrite !list_lookup_alter_ne by lia. done.
  - unfold stopAgent.
    destruct (agentProcesses w !! room) as [agentInfo|]; [|done].
    by destruct (kill (process agentInfo)) as [[|]|].
  - unfold launch, generateAgentScript.
    destruct (write_script e); cbn; [|done].
    destruct (make_logDir e); cbn; [|done].
    assert (∀ more, (S (S i) ≤ length (streams w ++ more))%nat ∧
                    (streams w ++ more) !! i = Some s1 ∧
                    (streams w ++ more) !! S i = Some s2) as Hmore.
    { intros more. rewrite length_app, !lookup_app_l by lia.
      split_and!; [lia|done..]. }
    destruct (spawn_node e) as [child_pid|]; cbn.
    + destruct (pipe_stdout e); [destruct (pipe_stderr e)|]; cbn;
        (split; [|by apply Hmore];
         intros h c [[_ Hc]|[_ <-]]%lookup_snoc_Some; [by eauto|];
         cbn; split; [done|]; right; lia).
    + split; [done|by apply Hmore].
  - unfold promote.
    destruct (agentProcesses w !! room) as [agentInfo|]; [|done].
    by case_bool_decide.
Qed.

Lemma unowned_streams_run i s1 s2 actions w :
  unowned_streams i s1 s2 w → unowned_streams i s1 s2 (run actions w).
Proof.
  induction actions as [|a actions IH] using rev_ind; [done|].
  intros Hw. rewrite run_snoc. by apply unowned_streams_exec, IH.
Qed.

Lemma launch_spawn_throws_world e roomName w m :
  write_script e = Returns tt → make_logDir e = Returns tt →
  spawn_node e = Throws m →
  launch e roomName w =
    (Throws m,
     {| agentProcesses := agentProcesses w; children := children w;
        scripts := scripts w ++ [script_name roomName (t_script e)];
        streams :=
          streams w ++
            [ {| s_path := log_name roomName (t_log e); s_open := true |};
              {| s_path := errorLog_name roomName (t_errorLog e);
                 s_open := true |} ] |}).
Proof.
  intros Hwrite Hdir Hspawn. unfold launch, generateAgentScript.
  by rewrite Hwrite, Hdir, Hspawn.
Qed.

Lemma unowned_after_failed_spawn e roomName w m :
  wf w →
  write_script e = Returns tt → make_logDir e = Returns tt →
  spawn_node e = Throws m →
  unowned_streams (length (streams w))
    {| s_path := log_name roomName (t_log e); s_open := true |}
    {| s_path := errorLog_name roomName (t_errorLog e); s_open := true |}
    (launch e roomName w).2.
Proof.
  intros [_ Hstr] Hwrite Hdir Hspawn.
  rewrite (launch_spawn_throws_world _ _ _ _ Hwrite Hdir Hspawn).
  split_and!; cbn.
  - intros h c Hc. destruct (Hstr _ _ Hc) as [HS Hlt]. split; [done|by left].
  - rewrite length_app. cbn. lia.
  - by rewrite list_lookup_middle.
  - rewrite lookup_app_r by lia.
    by replace (S (length (streams w)) - length (streams w))%nat
      with 1%nat by lia.
Qed.

(** X5.  When [spawn] throws, the launch has already made its script and its
    two log streams: the map and the children are as before, and the two
    streams are open and stay open whatever runs later, since no child
    exists whose [exit] would end them. *)
Theorem failed_spawn_leaves_streams_open (history later : list action)
    (e : launch_env) (roomName m : string) :
  let w := run history empty_world in
  write_script e = Returns tt →
  make_logDir e = Returns tt →
  spawn_node e = Throws m →
  let w1 := (launch e roomName w).2 in
  let i := length (streams w) in
  (launch e roomName w).1 = Throws m ∧
  agentProcesses w1 = agentProcesses w ∧
  children w1 = children w ∧
  scripts w1 = scripts w ++ [script_name roomName (t_script e)] ∧
  streams (run later w1) !! i =
    Some {| s_path := log_name roomName (t_log e); s_open := true |} ∧
  streams (run later w1) !! S i =
    Some {| s_path := errorLog_name roomName (t_errorLog e); s_open := true |}.
Proof.
  intros w Hwrite Hdir Hspawn w1 i.
  assert (wf w) as Hwf by (apply wf_run, wf_empty).
  pose proof (unowned_after_failed_spawn e roomName w m Hwf Hwrite Hdir Hspawn)
    as Hunowned.
  destruct (unowned_streams_run _ _ _ later _ Hunowned)
    as (_ & _ & Hlog & Herr).
  subst w1. rewrite (launch_spawn_throws_world _ _ _ _ Hwrite Hdir Hspawn) in *.
  by split_and!.
Qed.

Lemma failed_spawn_leaves_streams_open_witness :
  let e := {| write_script := Returns tt; t_script := 1700000020000;
              make_logDir := Returns tt; t_log := 1700000020001;
              t_errorLog := 1700000020001;
              spawn_node := Throws "spawn EINVAL"; t_start := 0;
              pipe_stdout := Returns tt; pipe_stderr := Returns tt |} in
  let w1 := (launch e "study-2" sample_world).2 in
  let later := [ChildExit 0 (Some 0) None; Launch study sample_launch;
                ChildExit 1 None (Some "SIGTERM")] in
  agentProcesses w1 = agentProcesses sample_world ∧
  streams (run later w1) !! 2%nat =
    Some {| s_path := "agent-study-2-1700000020001.log"; s_open := true |} ∧
  streams (run later w1) !! 3%nat =
    Some {| s_path := "agent-study-2-1700000020001-error.log"; s_open := true |}.
Proof.
  intros e w1 later.
  destruct (failed_spawn_leaves_streams_open sample_history later e "study-2"
              "spawn EINVAL" eq_refl eq_refl eq_refl)
    as (_ & Hmap & _ & _ & Hlog & Herr).
  split_and!; [exact Hmap|exact Hlog|exact Herr].
Defined.

(** ** Starting *)




(** X7.  A start of a room that does not count as running, with nothing else
    on the event loop, a room that exists or can be created, a file
    system and a spawn that succeed, and a child whose stdout and stderr
    can be piped: the call answers success with the
    pid of the spawn; the map gets, in place of whatever the room had, a
    [Running] record of the new child without error message; exactly one
    child, one script and two open log streams are added; the room now
    counts as running. *)
Theorem startAgent_launches (e : start_env) (roomName : string) (w : world)
    (child_pid : option Z) :
  isAgentRunning w roomName = false →
  during_roomExists e = [] → during_createRoom e = [] → during_grace e = [] →
  (roomExists (service e) roomName = true ∨
   ∃ room, createRoom (service e) roomName = Returns room) →
  write_script (launching e) = Returns tt →
  make_logDir (launching e) = Returns tt →
  spawn_node (launching e) = Returns child_pid →
  pipe_stdout (launching e) = Returns tt →
  pipe_stderr (launching e) = Returns tt →
  let r := startAgent e roomName w in
  r.1 = {| StartResult.success := true; StartResult.error := None;
           StartResult.pid := child_pid; StartResult.alreadyRunning := None |} ∧
  agentProcesses r.2 =
    <[roomName := {| process := length (children w); status := Running;
                     error := None; pid := default 0 child_pid;
                     startTime := t_start (launching e) |}]>
      (agentProcesses w) ∧
  children r.2 =
    children w ++
      [ {| c_room := roomName; c_pid := child_pid;
           c_logStream := length (streams w);
           c_errorLogStream := S (length (streams w));
           c_wiring := Wired |} ] ∧
  scripts r.2 = scripts w ++ [script_name roomName (t_script (launching e))] ∧
  streams r.2 =
    streams w ++
      [ {| s_path := log_name roomName (t_log (launching e)); s_open := true |};
        {| s_path := errorLog_name roomName (t_errorLog (launching e));
           s_open := true |} ] ∧
  isAgentRunning r.2 roomName = true.
Proof.
  intros Hidle Hq1 Hq2 Hq3 Hroom Hwrite Hdir Hspawn Hout Herr r.
  assert (ensure_room e roomName w = (Returns tt, w)) as Hensure.
  { unfold ensure_room. rewrite Hq1, Hq2.
    destruct Hroom as [->|[room Hcreated]]; [done|].
    destruct (roomExists (service e) roomName); [done|]. by rewrite Hcreated. }
  assert (r = ({| StartResult.success := true; StartResult.error := None;
                  StartResult.pid := child_pid;
                  StartResult.alreadyRunning := None |},
               promote roomName (launch (launching e) roomName w).2)) as ->.
  { subst r. unfold startAgent. rewrite Hidle, Hensure.
    unfold launch_and_wait, launch, generateAgentScript.
    by rewrite Hwrite, Hdir, Hspawn, Hout, Herr, Hq3. }
  unfold launch, generateAgentScript. rewrite Hwrite, Hdir, Hspawn, Hout, Herr.
  cbn [fst snd scripts streams children agentProcesses].
  unfold promote, isAgentRunning. cbn [agentProcesses].
  rewrite lookup_insert_eq. cbn [status].
  rewrite bool_decide_eq_true_2 by done.
  unfold set_agentProcesses. cbn [agentProcesses children scripts streams].
  rewrite lookup_insert_eq, insert_insert_eq. cbn.
  by split_and!.
Qed.

Lemma startAgent_launches_witness :
  let w := run [Launch study failing_launch; ChildError 0 "spawn node EACCES"]
             empty_world in
  let r := startAgent sample_start study w in
  isAgentRunning w study = false ∧
  StartResult.pid r.1 = Some 4242 ∧
  agentProcesses r.2 !! study =
    Some {| process := 1%nat; status := Running; error := None; pid := 4242;
            startTime := 1700000000002 |} ∧
  length (children r.2) = 2%nat.
Proof.
  intros w r.
  assert (isAgentRunning w study = false) as Hidle by reflexivity.
  destruct (startAgent_launches sample_start study w (Some 4242) Hidle
              eq_refl eq_refl eq_refl (or_introl eq_refl)
              eq_refl eq_refl eq_refl eq_refl eq_refl)
    as (Hanswer & Hmap & Hchildren & _).
  split_and!; [exact Hidle| | |].
  - subst r. by rewrite Hanswer.
  - subst r. rewrite Hmap. apply lookup_insert_eq.
  - subst r. by rewrite Hchildren.
Defined.

(** ** One room at a time *)

(** X8.  What is done for one room leaves the records of all other rooms as
    they are: stopping it, launching for it, promoting it, the [error]
    and [exit] events of its children, and a whole start of it during
    which nothing else runs. *)
Theorem rooms_are_isolated (w : world) (roomName other : string) :
  other ≠ roomName →
  (∀ kill, agentProcesses (stopAgent kill roomName w).2 !! other =
           agentProcesses w !! other) ∧
  (∀ e, agentProcesses (launch e roomName w).2 !! other =
        agentProcesses w !! other) ∧
  agentProcesses (promote roomName w) !! other = agentProcesses w !! other ∧
  (∀ h c message code signal,
     children w !! h = Some c → c_room c = roomName →
     agentProcesses (on_error h message w) !! other =
       agentProcesses w !! other ∧
     agentProcesses (on_exit h code signal w) !! other =
       agentProcesses w !! other) ∧
  (∀ e, during_roomExists e = [] → during_createRoom e = [] →
        during_grace e = [] →
        agentProcesses (startAgent e roomName w).2 !! other =
          agentProcesses w !! other).
Proof.
  intros Hne.
  assert (∀ e w0, agentProcesses (launch e roomName w0).2 !! other =
                  agentProcesses w0 !! other) as Hlaunch.
  { intros e w0. unfold launch, generateAgentScript.
    destruct (write_script e); cbn; [|done].
    destruct (make_logDir e); cbn; [|done].
    destruct (spawn_node e); cbn; [|done].
    destruct (pipe_stdout e); [destruct (pipe_stderr e)|]; cbn;
      by rewrite lookup_insert_ne. }
  assert (∀ w0, agentProcesses (promote roomName w0) !! other =
                agentProcesses w0 !! other) as Hpromote.
  { intros w0. unfold promote.
    destruct (agentProcesses w0 !! roomName) as [agentInfo|]; [|done].
    case_bool_decide; [|done]. cbn. by rewrite lookup_insert_ne. }
  split_and!; [|done|done| |].
  - intros kill. unfold stopAgent.
    destruct (agentProcesses w !! roomName) as [agentInfo|]; [|done].
    destruct (kill (process agentInfo)) as [[|]|]; cbn; [|done..].
    by rewrite lookup_delete_ne.
  - intros h c message code signal Hc Hroom.
    unfold on_error, on_exit. rewrite Hc, Hroom. split.
    + destruct (agentProcesses w !! roomName) as [agentInfo|]; [|done].
      cbn. by rewrite lookup_insert_ne.
    + cbn. by rewrite lookup_delete_ne.
  - intros e Hq1 Hq2 Hq3. unfold startAgent.
    destruct (isAgentRunning w roomName); [done|].
    assert (ensure_room e roomName w = ((ensure_room e roomName w).1, w))
      as ->.
    { unfold ensure_room. rewrite Hq1, Hq2.
      destruct (roomExists (service e) roomName); [done|].
      by destruct (createRoom (service e) roomName). }
    destruct ((ensure_room e roomName w).1) as [[]|m]; [|done].
    unfold launch_and_wait. rewrite Hq3.
    pose proof (Hlaunch (launching e) w) as Hl.
    destruct (launch (launching e) roomName w) as [[[h p]|m] w1]; [|done].
    cbn in *. by rewrite Hpromote.
Qed.

Lemma rooms_are_isolated_witness :
  agentProcesses (stopAgent (λ _, Returns true) "study-2" sample_world).2
    !! study = Some sample_record ∧
  agentProcesses (startAgent sample_start "study-2" sample_world).2 !! study =
    Some sample_record.
Proof.
  assert (study ≠ "study-2") as Hne by discriminate.
  destruct (rooms_are_isolated sample_world "study-2" study Hne)
    as (Hstop & _ & _ & _ & Hstart).
  split.
  - rewrite Hstop. reflexivity.
  - rewrite (Hstart sample_start eq_refl eq_refl eq_refl). reflexivity.
Defined.

(** ** Stop and exit *)

(** X9.  [stopAgent] removes the record at once and the [exit] listener of
    the killed child removes it again later: the two do not disturb each
    other.  After a successful stop, the [exit] of the child leaves the
    same world as that [exit] alone would have: the room without record,
    the two log streams of the child ended. *)
Theorem exit_after_stop (history : list action) (roomName : string)
    (agentInfo : agent_info) (kill : nat → outcome bool)
    (code : option Z) (signal : option string) :
  let w := run history empty_world in
  agentProcesses w !! roomName = Some agentInfo →
  kill (process agentInfo) = Returns true →
  (stopAgent kill roomName w).1 = true ∧
  on_exit (process agentInfo) code signal (stopAgent kill roomName w).2 =
    on_exit (process agentInfo) code signal w.
Proof.
  intros w Hrec Hkill.
  assert (wf w) as [Hreg _] by (apply wf_run, wf_empty).
  destruct (Hreg _ _ Hrec) as (c & Hc & Hroom & _).
  unfold stopAgent. rewrite Hrec, Hkill. cbn. split; [done|].
  unfold on_exit. cbn. rewrite Hc, Hroom. by rewrite delete_delete_eq.
Qed.

Lemma exit_after_stop_witness :
  let kill := λ _ : nat, Returns true in
  agentProcesses sample_world !! study = Some sample_record ∧
  on_exit 0 None (Some "SIGTERM") (stopAgent kill study sample_world).2 =
    on_exit 0 None (Some "SIGTERM") sample_world.
Proof.
  intros kill.
  assert (agentProcesses sample_world !! study = Some sample_record) as Hrec
    by reflexivity.
  split; [exact Hrec|].
  exact (proj2 (exit_after_stop sample_history study sample_record kill None
                  (Some "SIGTERM") Hrec eq_refl)).
Defined.

(** X10.  The [exit] listener deletes by room name, not by child.  When a room
    was started again while an earlier child of it had not yet exited,
    the [exit] of the earlier child removes the record of the later one:
    the room has no record and does not count as running, so a further
    start does not answer [alreadyRunning]. *)
Theorem exit_of_earlier_child_removes_record (history : list action)
    (roomName : string) (agentInfo : agent_info) (h : nat) (c : child)
    (code : option Z) (signal : option string) :
  let w := run history empty_world in
  agentProcesses w !! roomName = Some agentInfo →
  children w !! h = Some c →
  c_room c = roomName →
  h ≠ process agentInfo →
  let w' := on_exit h code signal w in
  agentProcesses w' !! roomName = None ∧
  isAgentRunning w' roomName = false ∧
  is_Some (children w' !! process agentInfo) ∧
  ∀ e, StartResult.alreadyRunning (startAgent e roomName w').1 = None.
Proof.
  intros w Hrec Hc Hroom Hother w'.
  assert (wf w) as [Hreg _] by (apply wf_run, wf_empty).
  destruct (Hreg _ _ Hrec) as (own & Hown & _).
  assert (agentProcesses w' !! roomName = None) as Hgone.
  { subst w'. unfold on_exit. rewrite Hc, Hroom. cbn. apply lookup_delete_eq. }
  assert (isAgentRunning w' roomName = false) as Hidle
    by (unfold isAgentRunning; by rewrite Hgone).
  split_and!; [done|done| |].
  - subst w'. unfold on_exit. rewrite Hc. cbn. by eauto.
  - intros e. by apply startAgent_not_running.
Qed.

Lemma exit_of_earlier_child_removes_record_witness :
  let history := [Launch study failing_launch;
                  ChildError 0 "spawn node EACCES";
                  Launch study sample_launch; Promote study] in
  let w := run history empty_world in
  let w' := on_exit 0 None None w in
  agentProcesses w !! study =
    Some {| process := 1%nat; status := Running; error := None; pid := 4242;
            startTime := 1700000000002 |} ∧
  agentProcesses w' !! study = None ∧
  isAgentRunning w' study = false.
Proof.
  intros history w w'.
  assert (agentProcesses w !! study =
            Some {| process := 1%nat; status := Running; error := None;
                    pid := 4242; startTime := 1700000000002 |}) as Hrec
    by reflexivity.
  assert (0%nat ≠ 1%nat) as Hother by discriminate.
  destruct (exit_of_earlier_child_removes_record history study _ 0%nat
              {| c_room := study; c_pid := None; c_logStream := 0;
                 c_errorLogStream := 1; c_wiring := Wired |}
              None None Hrec eq_refl eq_refl Hother)
    as (Hgone & Hidle & _).
  split_and!; [exact Hrec|exact Hgone|exact Hidle].
Defined.

(** ** The pipes *)

Lemma end_stream_twice j (l : list log_stream) :
  alter end_stream j (alter end_stream j l) = alter end_stream j l.
Proof. rewrite list_alter_alter_eq. by apply list_alter_ext. Qed.

(** X26.  [pipe] ends a log stream when the stream of the child that feeds
    it ends, without waiting for an [exit].  When the stdout and the
    stderr of a wired child have ended, the two log streams of the child
    are ended while the map, with the record of the room, the children
    and the scripts are as they were; the [exit] of the child that comes
    later ends nothing further, and leaves the world that the [exit]
    alone would have left. *)
Theorem pipe_ends_log_streams (history : list action) (h : nat) (c : child)
    (code : option Z) (signal : option string) :
  let w := run history empty_world in
  children w !! h = Some c →
  c_wiring c = Wired →
  let w1 := run [StdoutEnd h; StderrEnd h] w in
  agentProcesses w1 = agentProcesses w ∧
  children w1 = children w ∧
  scripts w1 = scripts w ∧
  streams w1 =
    alter end_stream (c_errorLogStream c)
      (alter end_stream (c_logStream c) (streams w)) ∧
  (∃ s1 s2,
     streams w1 !! c_logStream c = Some s1 ∧ s_open s1 = false ∧
     streams w1 !! c_errorLogStream c = Some s2 ∧ s_open s2 = false) ∧
  exec (ChildExit h code signal) w1 = exec (ChildExit h code signal) w.
Proof.
  intros w Hc Hwired w1.
  assert (wf w) as [_ Hstr] by (apply wf_run, wf_empty).
  destruct (Hstr _ _ Hc) as [HS Hlt].
  assert (w1 =
            {| agentProcesses := agentProcesses w; children := children w;
               scripts := scripts w;
               streams :=
                 alter end_stream (c_errorLogStream c)
                   (alter end_stream (c_logStream c) (streams w)) |}) as ->.
  { subst w1. cbn [run foldl exec]. unfold on_stdout_end.
    rewrite Hc, Hwired. rewrite (bool_decide_eq_true_2 (Wired ≠ Unwired)) by done.
    unfold on_stderr_end. cbn [children]. rewrite Hc, Hwired.
    by rewrite bool_decide_eq_true_2. }
  cbn [agentProcesses children scripts streams exec]. split_and!; try done.
  - destruct (lookup_lt_is_Some_2 (streams w) (c_logStream c)) as [s1 Hs1];
      [lia|].
    destruct (lookup_lt_is_Some_2 (streams w) (c_errorLogStream c))
      as [s2 Hs2]; [lia|].
    exists (end_stream s1), (end_stream s2). split_and!; try done.
    + rewrite list_lookup_alter_ne by lia.
      by rewrite list_lookup_alter_eq, Hs1.
    + rewrite list_lookup_alter_eq, list_lookup_alter_ne by lia.
      by rewrite Hs2.
  - unfold listening, on_exit. cbn [agentProcesses children scripts streams].
    rewrite Hc, Hwired. rewrite bool_decide_eq_true_2 by done.
    f_equal.
    rewrite (list_alter_alter_ne _ _ _ (c_logStream c) (c_errorLogStream c))
      by lia.
    by rewrite !end_stream_twice.
Qed.

Lemma pipe_ends_log_streams_witness :
  let w1 := run [StdoutEnd 0; StderrEnd 0] sample_world in
  children sample_world !! 0%nat =
    Some {| c_room := study; c_pid := Some 4242; c_logStream := 0;
            c_errorLogStream := 1; c_wiring := Wired |} ∧
  agentProcesses w1 !! study = Some sample_record ∧
  streams w1 !! 0%nat =
    Some {| s_path := "agent-study-1-1700000000001.log"; s_open := false |} ∧
  exec (ChildExit 0 (Some 0) None) w1 =
    exec (ChildExit 0 (Some 0) None) sample_world.
Proof.
  intros w1.
  destruct (pipe_ends_log_streams sample_history 0
              {| c_room := study; c_pid := Some 4242; c_logStream := 0;
                 c_errorLogStream := 1; c_wiring := Wired |}
              (Some 0) None eq_refl eq_refl)
    as (Hmap & _ & _ & Hstreams & _ & Hexit).
  split_and!; [reflexivity| | |exact Hexit].
  - exact (eq_trans (f_equal (λ m, m !! study) Hmap) eq_refl).
  - exact (eq_trans (f_equal (λ l, l !! 0%nat) Hstreams) eq_refl).
Defined.

(** * Further properties of the presence check *)

(** ** Prefixes and substrings *)

Lemma strip_prefix_spec p s rest :
  strip_prefix p s = Some rest ↔ s = p +:+ rest.
Proof.
  revert s. induction p as [|a p IH]; intros s; cbn.
  - split; [by intros [= ->]|by intros ->].
  - destruct s as [|b s]; [done|].
    destruct (Ascii.eqb_spec a b) as [->|Hne].
    + rewrite IH. split; [by intros ->|by intros [= ->]].
    + split; [done|]. by intros [= ? _].
Qed.

Lemma prefix_strip p s :
  String.prefix p s = true ↔ is_Some (strip_prefix p s).
Proof.
  revert s. induction p as [|a p IH]; intros s; destruct s as [|b s]; cbn.
  - by eauto.
  - by eauto.
  - split; [done|by intros [? ?]].
  - destruct (Ascii.ascii_dec a b) as [->|Hne].
    + by rewrite Ascii.eqb_refl.
    + apply Ascii.eqb_neq in Hne as ->. split; [done|by intros [? ?]].
Qed.

Lemma prefix_spec p s :
  String.prefix p s = true ↔ ∃ rest, s = p +:+ rest.
Proof.
  rewrite prefix_strip. unfold is_Some.
  by setoid_rewrite strip_prefix_spec.
Qed.

Lemma includes_spec sub s :
  includes sub s = true ↔ ∃ before after, s = before +:+ sub +:+ after.
Proof.
  induction s as [|a s IH]; cbn [includes].
  - rewrite orb_false_r, prefix_spec. split.
    + intros [rest ->]. by exists "", rest.
    + intros (before & after & Hs). destruct before; [by eauto|done].
  - rewrite orb_true_iff, prefix_spec, IH. split.
    + intros [[rest ->]|(before & after & ->)].
      * by exists "", rest.
      * by exists (String a before), after.
    + intros (before & after & Hs). destruct before as [|b before].
      * left. by eauto.
      * right. injection Hs as -> ->. by eauto.
Qed.

(** X11.  By its identity a participant is taken for an agent exactly when the
    identity starts with [agent-], or has [assistant] or [bot] somewhere
    in it. *)
Theorem agent_identity_spec (id : string) :
  agent_identity id = true ↔
  (∃ rest, id = "agent-" +:+ rest) ∨
  (∃ before after, id = before +:+ "assistant" +:+ after) ∨
  (∃ before after, id = before +:+ "bot" +:+ after).
Proof.
  unfold agent_identity.
  rewrite !orb_true_iff, prefix_spec, !includes_spec. tauto.
Qed.

(** ** The loop over the participants *)

Lemma existsb_permutation {A} (f : A → bool) (l1 l2 : list A) :
  l1 ≡ₚ l2 → existsb f l1 = existsb f l2.
Proof.
  induction 1 as [|x l1 l2 _ IH|x y l|l1 l2 l3 _ IH1 _ IH2]; cbn.
  - done.
  - by rewrite IH.
  - by destruct (f x), (f y).
  - by rewrite IH1.
Qed.

Section PresenceOrder.

Variable JSON_parse : string → outcome json.

(** X12.  The verdict of the loop does not depend on the order in which the
    service lists the participants, and it is the disjunction of the
    verdicts on the parts of a list: more participants never turn a
    [true] into a [false]. *)
Theorem scan_ignores_order (participants others : list participant) :
  scan JSON_parse (participants ++ others) =
    scan JSON_parse participants || scan JSON_parse others ∧
  (∀ reordered, participants ≡ₚ reordered →
     scan JSON_parse reordered = scan JSON_parse participants).
Proof.
  split.
  - by rewrite !scan_existsb, existsb_app.
  - intros reordered Hperm. rewrite !scan_existsb.
    symmetry. by apply existsb_permutation.
Qed.

(** X13.  The answer of the presence check depends on the random draw only
    when the room is known, the client has [listParticipants], and that
    call rejects.  With a configuration that is missing the answer is
    [false]. *)
Theorem draw_matters_only_on_query_failure (lk : livekit) (draw1 draw2 : Q)
    (roomName : string) :
  (checkAgentInRoom JSON_parse lk draw1 roomName ≠
   checkAgentInRoom JSON_parse lk draw2 roomName →
   roomExists lk roomName = true ∧
   ∃ listParticipants m,
     sdk_listParticipants lk = Some listParticipants ∧
     listParticipants roomName = Throws m) ∧
  (configured lk = false →
   checkAgentInRoom JSON_parse lk draw1 roomName = false).
Proof.
  split.
  - unfold checkAgentInRoom, initLivekitClient.
    destruct (roomExists lk roomName) eqn:Hroom; cbn; [|done].
    rewrite (roomExists_configured _ _ Hroom).
    destruct (sdk_listParticipants lk) as [listParticipants|]; [|done].
    destruct (listParticipants roomName) as [participants|m] eqn:Hlist;
      [done|].
    intros _. split; [done|]. by eauto.
  - intros Hconf. unfold checkAgentInRoom.
    destruct (roomExists lk roomName) eqn:Hroom; [|done].
    apply roomExists_configured in Hroom. congruence.
Qed.

End PresenceOrder.

Lemma draw_matters_only_on_query_failure_witness :
  let lk := service_listing (Throws "fetch failed") in
  checkAgentInRoom JSON_parse_sample lk (9 # 10)%Q study ≠
  checkAgentInRoom JSON_parse_sample lk (1 # 10)%Q study ∧
  roomExists lk study = true ∧
  ∃ listParticipants m,
    sdk_listParticipants lk = Some listParticipants ∧
    listParticipants study = Throws m.
Proof.
  intros lk.
  assert (checkAgentInRoom JSON_parse_sample lk (9 # 10)%Q study ≠
          checkAgentInRoom JSON_parse_sample lk (1 # 10)%Q study) as Hdiffer
    by (vm_compute; discriminate).
  split; [exact Hdiffer|].
  exact (proj1 (draw_matters_only_on_query_failure JSON_parse_sample lk
                  (9 # 10)%Q (1 # 10)%Q study) Hdiffer).
Defined.

(** * Further properties of the room service *)

(** X14.  Without configuration every call of the room service throws the
    configuration error, except [roomExists], which answers [false].
    With it, [getRoom], [roomExists] and [deleteRoom] never reject: a
    failure of the client becomes [null] or [false]; [deleteRoom] answers
    [true] only when the client has the method and its call resolved;
    [listRooms] and [createRoom] pass on what the client answers. *)
Theorem room_service_failures (lk : livekit)
    (sdk_deleteRoom : option (string → outcome unit)) (name : string) :
  (configured lk = false →
     getRoom lk name = Throws config_missing ∧
     listRooms lk = Throws config_missing ∧
     createRoom lk name = Throws config_missing ∧
     deleteRoom lk sdk_deleteRoom name = Throws config_missing ∧
     roomExists lk name = false) ∧
  (configured lk = true →
     (∃ found, getRoom lk name = Returns found ∧
               roomExists lk name = bool_decide (is_Some found)) ∧
     (∃ deleted, deleteRoom lk sdk_deleteRoom name = Returns deleted ∧
        (deleted = true ↔
         ∃ delete_room u, sdk_deleteRoom = Some delete_room ∧
                          delete_room name = Returns u)) ∧
     listRooms lk = sdk_listRooms lk ∧
     createRoom lk name = sdk_createRoom lk name).
Proof.
  unfold getRoom, roomExists, getRoom, listRooms, createRoom, deleteRoom,
    getLivekitClient.
  split; intros ->; [done|]. split_and!; try done.
  - destruct (sdk_getRoom lk) as [get|].
    + destruct (get name) as [[room|]|m]; by eauto.
    + destruct (sdk_listRooms lk) as [rooms|m]; [|by eauto].
      destruct (List.find _ rooms); by eauto.
  - destruct sdk_deleteRoom as [delete_room|].
    + destruct (delete_room name) as [u|m] eqn:Hdel.
      * exists true. split; [done|]. split; [by eauto|done].
      * exists false. split; [done|]. split; [done|].
        intros (d & u & [= <-] & Hu). congruence.
    + exists false. split; [done|]. split; [done|]. by intros (d & u & ? & _).
Qed.

Lemma room_service_failures_witness :
  let lk := {| configured := true; sdk_getRoom := None;
               sdk_listRooms := Throws "503";
               sdk_createRoom := λ _, Throws "503";
               sdk_listParticipants := None |} in
  let broken := {| configured := false; sdk_getRoom := None;
                   sdk_listRooms := Returns [];
                   sdk_createRoom := λ name, Returns {| room_name := name |};
                   sdk_listParticipants := None |} in
  getRoom broken study = Throws config_missing ∧
  roomExists broken study = false ∧
  (∃ found, getRoom lk study = Returns found ∧
            roomExists lk study = bool_decide (is_Some found)) ∧
  createRoom lk study = Throws "503".
Proof.
  intros lk broken.
  destruct (room_service_failures broken None study) as [Hmissing _].
  destruct (Hmissing eq_refl) as (Hget & _ & _ & _ & Hexists).
  destruct (room_service_failures lk None study) as [_ Hset].
  destruct (Hset eq_refl) as (Hfound & _ & _ & Hcreate).
  split_and!; [exact Hget|exact Hexists|exact Hfound|exact Hcreate].
Defined.

(** X15.  When the client has no [getRoom], a room exists exactly when the
    listing of the rooms has a room of that name, and [getRoom] answers
    with a listed room of that name; a listing that fails makes every
    room count as absent. *)
Theorem roomExists_by_listing (lk : livekit) (name : string) :
  configured lk = true →
  sdk_getRoom lk = None →
  (∀ rooms, sdk_listRooms lk = Returns rooms →
     (roomExists lk name = true ↔
      ∃ room, room ∈ rooms ∧ room_name room = name) ∧
     (∀ room, getRoom lk name = Returns (Some room) →
        room ∈ rooms ∧ room_name room = name)) ∧
  (∀ m, sdk_listRooms lk = Throws m → roomExists lk name = false).
Proof.
  intros Hconf Hget. unfold roomExists, getRoom, getLivekitClient.
  rewrite Hconf, Hget. split.
  - intros rooms ->.
    destruct (List.find _ rooms) as [found|] eqn:Hfind.
    + apply find_some in Hfind as [Hin Hname%String.eqb_eq].
      apply list_elem_of_In in Hin. split; [split; [by eauto|done]|].
      by intros room [= <-].
    + split; [|done]. split; [done|].
      intros (room & Hin%list_elem_of_In & Hname).
      apply (find_none _ _ Hfind) in Hin. cbn in Hin.
      rewrite Hname, String.eqb_refl in Hin. done.
  - by intros m ->.
Qed.

Lemma roomExists_by_listing_witness :
  let rooms := [ {| room_name := "lobby" |}; {| room_name := study |} ] in
  let lk := {| configured := true; sdk_getRoom := None;
               sdk_listRooms := Returns rooms;
               sdk_createRoom := λ name, Returns {| room_name := name |};
               sdk_listParticipants := None |} in
  (roomExists lk study = true ↔ ∃ room, room ∈ rooms ∧ room_name room = study) ∧
  (roomExists lk "cellar" = true ↔
   ∃ room, room ∈ rooms ∧ room_name room = "cellar").
Proof.
  intros rooms lk. split.
  - exact (proj1 (proj1 (roomExists_by_listing lk study eq_refl eq_refl)
                    rooms eq_refl)).
  - exact (proj1 (proj1 (roomExists_by_listing lk "cellar" eq_refl eq_refl)
                    rooms eq_refl)).
Defined.

(** ** The client *)

Lemma prefix_false_strip p s :
  String.prefix p s = false ↔ strip_prefix p s = None.
Proof.
  pose proof (prefix_strip p s) as H.
  destruct (String.prefix p s), (strip_prefix p s) as [rest|]; split;
    try done.
  - intros _. by destruct (proj1 H eq_refl).
  - intros _. assert (false = true) by (apply H; by eauto). done.
Qed.

Lemma client_host_cases (url : string) :
  String.prefix "ws://" (client_host url) = false ∧
  String.prefix "wss://" (client_host url) = false ∧
  (∀ rest, url = "wss://" +:+ rest ∨ url = "ws://" +:+ rest →
     client_host url = "https://" +:+ rest) ∧
  (String.prefix "ws://" url = false → String.prefix "wss://" url = false →
     client_host url = url).
Proof.
  unfold client_host.
  destruct (strip_prefix "wss://" url) as [rest|] eqn:Hwss.
  - apply strip_prefix_spec in Hwss as ->. split_and!; try done.
    + intros rest' [H|H]; by simplify_eq/=.
    + intros _ H.
      by rewrite (proj2 (prefix_spec "wss://" _) (ex_intro _ rest eq_refl)) in H.
  - destruct (strip_prefix "ws://" url) as [rest|] eqn:Hws.
    + apply strip_prefix_spec in Hws as ->. split_and!; try done.
      * intros rest' [H|H]; by simplify_eq/=.
      * intros H.
        by rewrite (proj2 (prefix_spec "ws://" _) (ex_intro _ rest eq_refl)) in H.
    + split_and!; try done.
      * by apply prefix_false_strip.
      * by apply prefix_false_strip.
      * intros rest' [-> | ->]; by simplify_eq/=.
Qed.

(** X16.  The client is made only when the URL, the key and the secret are all
    set and not empty; otherwise the configuration error is thrown.  The
    key and the secret are passed as they are.  The host of the client
    never starts with [ws://] or [wss://]: such a scheme is replaced by
    [https://] and what follows it is kept; any other URL is passed
    unchanged. *)
Theorem client_of_spec (env : environment) :
  let url := or_empty (NEXT_PUBLIC_LIVEKIT_URL env) in
  let key := or_empty (LIVEKIT_API_KEY env) in
  let secret := or_empty (LIVEKIT_API_SECRET env) in
  match client_of env with
  | Throws m => m = config_missing ∧ (url = "" ∨ key = "" ∨ secret = "")
  | Returns client =>
      url ≠ "" ∧ key ≠ "" ∧ secret ≠ "" ∧
      client_apiKey client = key ∧ client_apiSecret client = secret ∧
      String.prefix "ws://" (client_host_url client) = false ∧
      String.prefix "wss://" (client_host_url client) = false ∧
      (∀ rest, url = "wss://" +:+ rest ∨ url = "ws://" +:+ rest →
         client_host_url client = "https://" +:+ rest) ∧
      (String.prefix "ws://" url = false → String.prefix "wss://" url = false →
         client_host_url client = url)
  end.
Proof.
  intros url key secret. unfold client_of. fold url key secret.
  destruct (String.eqb_spec url "") as [Hurl|Hurl]; cbn; [by eauto|].
  destruct (String.eqb_spec key "") as [Hkey|Hkey]; cbn; [by eauto|].
  destruct (String.eqb_spec secret "") as [Hsecret|Hsecret]; cbn; [by eauto|].
  destruct (client_host_cases url) as (Hws & Hwss & Hrewrite & Hkeep).
  by split_and!.
Qed.

(** ** Options of a new room *)

(** X17.  The options sent for a new room always carry a timeout and a limit
    that are neither zero nor [NaN]: a value the caller gives is sent as
    it is unless it is zero or [NaN]; then, and when it is not given, the
    timeout is 600 seconds and the limit is 20 participants. *)
Theorem createRoom_opts_defaults (name : string) (options : option RoomOptions.t) :
  let opts := createRoom_opts name options in
  let timeout := options ≫= RoomOptions.emptyTimeout in
  let limit := options ≫= RoomOptions.maxParticipants in
  CreateOptions.name opts = name ∧
  number_truthy (CreateOptions.emptyTimeout opts) = true ∧
  number_truthy (CreateOptions.maxParticipants opts) = true ∧
  (∀ v, timeout = Some v →
     CreateOptions.emptyTimeout opts =
       if number_truthy v then v else Finite 600) ∧
  (timeout = None → CreateOptions.emptyTimeout opts = Finite 600) ∧
  (∀ v, limit = Some v →
     CreateOptions.maxParticipants opts =
       if number_truthy v then v else Finite 20) ∧
  (limit = None → CreateOptions.maxParticipants opts = Finite 20).
Proof.
  intros opts timeout limit. subst opts. unfold createRoom_opts. cbn.
  fold timeout limit. unfold number_or. split_and!; try done.
  - destruct timeout as [v|]; [|done]. by destruct (number_truthy v) eqn:Hv.
  - destruct limit as [v|]; [|done]. by destruct (number_truthy v) eqn:Hv.
  - by intros v ->.
  - by intros ->.
  - by intros v ->.
  - by intros ->.
Qed.

Lemma createRoom_opts_defaults_witness :
  let options := Some {| RoomOptions.emptyTimeout := Some (Finite 0);
                         RoomOptions.maxParticipants := Some (Finite 2) |} in
  CreateOptions.emptyTimeout (createRoom_opts study options) = Finite 600 ∧
  CreateOptions.maxParticipants (createRoom_opts study options) = Finite 2 ∧
  CreateOptions.emptyTimeout (createRoom_opts study None) = Finite 600.
Proof.
  intros options.
  destruct (createRoom_opts_defaults study options)
    as (_ & _ & _ & Htimeout & _ & Hlimit & _).
  destruct (createRoom_opts_defaults study None)
    as (_ & _ & _ & _ & Hdefault & _).
  split_and!.
  - exact (Htimeout (Finite 0) eq_refl).
  - exact (Hlimit (Finite 2) eq_refl).
  - exact (Hdefault eq_refl).
Defined.

(** * Tokens *)

(** X18.  [generateToken] throws, without a call to the service, when the key
    or the secret is unset or empty.  Otherwise it signs a token for the
    given identity with a lifetime of 24 hours and one grant, to join the
    given room and to publish, subscribe and publish data there; the
    token is the same whatever the room service answers, also when it
    fails.  The room is created at most once, and exactly when the
    service is configured and does not know the room. *)
Theorem generateToken_issues (toJwt : AccessToken → outcome string)
    (apiKey apiSecret : option string) (lk : livekit)
    (roomName username : string) :
  let r := generateToken toJwt apiKey apiSecret lk roomName username in
  (or_empty apiKey = "" ∨ or_empty apiSecret = "" →
     r = (Throws token_not_configured, [])) ∧
  (or_empty apiKey ≠ "" → or_empty apiSecret ≠ "" →
     r.1 = toJwt {| token_apiKey := or_empty apiKey;
                    token_apiSecret := or_empty apiSecret;
                    token_identity := username;
                    token_ttl := "24h";
                    token_grants :=
                      [ {| roomJoin := true; room := roomName;
                           canPublish := true; canSubscribe := true;
                           canPublishData := true |} ] |} ∧
     (∀ lk', (generateToken toJwt apiKey apiSecret lk' roomName username).1 =
             r.1) ∧
     r.2 = (if bool_decide (configured lk = true ∧
                            roomExists lk roomName = false)
            then [roomName] else [])).
Proof.
  intros r. subst r. unfold generateToken. split.
  - intros [-> | ->]; cbn; [done|]. by rewrite orb_true_r.
  - intros Hkey%String.eqb_neq Hsecret%String.eqb_neq.
    rewrite Hkey, Hsecret. cbn. split_and!; [done|done|].
    unfold getLivekitClient.
    destruct (roomExists lk roomName) eqn:Hroom.
    + rewrite bool_decide_eq_false_2; [done|]. by intros [_ ?].
    + destruct (configured lk).
      * by rewrite bool_decide_eq_true_2.
      * rewrite bool_decide_eq_false_2; [done|]. by intros [? _].
Qed.

Lemma generateToken_issues_witness :
  let toJwt := λ at_ : AccessToken, Returns (token_identity at_) in
  let down := {| configured := true; sdk_getRoom := Some (λ _, Throws "503");
                 sdk_listRooms := Throws "503";
                 sdk_createRoom := λ _, Throws "503";
                 sdk_listParticipants := None |} in
  generateToken toJwt None (Some "secret") down study "alice" =
    (Throws token_not_configured, []) ∧
  (generateToken toJwt (Some "key") (Some "secret") down study "alice").1 =
    Returns "alice" ∧
  (generateToken toJwt (Some "key") (Some "secret") down study "alice").2 =
    [study].
Proof.
  intros toJwt down.
  destruct (generateToken_issues toJwt None (Some "secret") down study "alice")
    as [Hmissing _].
  destruct (generateToken_issues toJwt (Some "key") (Some "secret") down study
              "alice") as [_ Hset].
  destruct Hset as (Htoken & _ & Hcreated); [discriminate|discriminate|].
  split_and!; [exact (Hmissing (or_introl eq_refl))|exact Htoken|exact Hcreated].
Defined.

(** * The guard of the token route *)

(** X19.  [middleware] lets a request pass when its path is not under
    [/api/livekit-token], when it sends no [Origin] or no [Host] header
    (or an empty one), and when the host occurs anywhere in the origin.
    It answers 401 exactly for a request under the route that sends both
    headers, not empty, with an origin in which the host does not
    occur. *)
Theorem middleware_spec (request : NextRequest) :
  (String.prefix "/api/livekit-token" (pathname request) = false →
     middleware request = Next) ∧
  (origin request = None ∨ origin request = Some "" ∨
   host request = None ∨ host request = Some "" →
     middleware request = Next) ∧
  (∀ h before after,
     host request = Some h →
     origin request = Some (before +:+ h +:+ after) →
     middleware request = Next) ∧
  (middleware request = Unauthorized ↔
   String.prefix "/api/livekit-token" (pathname request) = true ∧
   ∃ o h, origin request = Some o ∧ host request = Some h ∧
          o ≠ "" ∧ h ≠ "" ∧
          ¬ ∃ before after, o = before +:+ h +:+ after).
Proof.
  unfold middleware. split_and!.
  - by intros ->.
  - destruct (String.prefix _ _); [|done].
    intros [-> | [-> | [-> | ->]]]; try done.
    + by destruct (host request).
    + by destruct (origin request).
    + destruct (origin request) as [o|]; [|done]. cbn.
      by rewrite andb_false_r.
  - intros h before after -> ->.
    destruct (String.prefix _ _); [|done].
    rewrite (proj2 (includes_spec h _)) by eauto.
    by rewrite andb_false_r.
  - destruct (String.prefix _ _); [|split; [done|by intros [? _]]].
    destruct (origin request) as [o|];
      [|split; [done|by intros (_ & ? & ? & ? & _)]].
    destruct (host request) as [h|];
      [|split; [done|by intros (_ & ? & ? & _ & ? & _)]].
    destruct (String.eqb_spec o "") as [Ho|Ho]; cbn.
    { split; [done|]. intros (_ & o' & h' & [= <-] & _ & Ho' & _). done. }
    destruct (String.eqb_spec h "") as [Hh|Hh]; cbn.
    { split; [done|]. intros (_ & o' & h' & _ & [= <-] & _ & Hh' & _). done. }
    destruct (includes h o) eqn:Hin; cbn.
    + apply includes_spec in Hin. split; [done|].
      intros (_ & o' & h' & [= <-] & [= <-] & _ & _ & Hnot). done.
    + split; [|done]. intros _. split; [done|].
      exists o, h. split_and!; try done.
      intros Hoccurs%includes_spec. congruence.
Qed.

Lemma middleware_spec_witness :
  let elsewhere := {| pathname := "/api/agent";
                      origin := Some "https://evil.test";
                      host := Some "app.test" |} in
  let no_origin := {| pathname := "/api/livekit-token"; origin := None;
                      host := Some "app.test" |} in
  let lookalike := {| pathname := "/api/livekit-token";
                      origin := Some "https://app.test.evil.test";
                      host := Some "app.test" |} in
  middleware elsewhere = Next ∧
  middleware no_origin = Next ∧
  middleware lookalike = Next.
Proof.
  intros elsewhere no_origin lookalike. split_and!.
  - exact (proj1 (middleware_spec elsewhere) eq_refl).
  - exact (proj1 (proj2 (middleware_spec no_origin)) (or_introl eq_refl)).
  - exact (proj1 (proj2 (proj2 (middleware_spec lookalike))) "app.test"
             "https://" ".evil.test" eq_refl eq_refl).
Defined.

(** * The conversation context *)

Lemma Qtruncate_inject_Z z : Qtruncate (inject_Z z) = z.
Proof.
  unfold Qtruncate. destruct (Qle_bool 0 (inject_Z z)).
  - apply Qfloor_Z.
  - apply Qceiling_Z.
Qed.

(** [slice(-n)] for a whole number [n]. *)
Lemma slice_negate_whole {A} (n : Z) (array : list A) :
  slice (negate (Finite (inject_Z n))) array =
    if 0 <? n then drop (length array - Z.to_nat n) array
    else drop (Z.to_nat (- n)) array.
Proof.
  unfold slice, negate, ToIntegerOrInfinity.
  change (- inject_Z n)%Q with (inject_Z (- n)).
  rewrite Qtruncate_inject_Z.
  destruct (Z.ltb_spec 0 n), (Z.ltb_spec (- n) 0); try lia.
  - f_equal. lia.
  - destruct (Z.le_ge_cases (- n) (Z.of_nat (length array))).
    + by rewrite Z.min_l.
    + rewrite Z.min_r, Nat2Z.id by done.
      rewrite !drop_ge; [done|lia..].
Qed.

Lemma keep_last_snoc {A} (n : nat) (l : list A) (x : A) :
  (1 ≤ n)%nat →
  drop (length (drop (length l - n) l ++ [x]) - n) (drop (length l - n) l ++ [x]) =
  drop (length (l ++ [x]) - n) (l ++ [x]).
Proof.
  intros Hn. rewrite !length_app, length_drop. cbn.
  destruct (decide (length l < n)%nat) as [Hshort|Hlong].
  - replace (length l - n)%nat with 0%nat by lia. cbn.
    by replace (length l - 0 + 1 - n)%nat with (length l + 1 - n)%nat by lia.
  - replace (length l - (length l - n) + 1 - n)%nat with 1%nat by lia.
    replace (length l + 1 - n)%nat with (S (length l - n)) by lia.
    rewrite (drop_app_le l) by lia.
    rewrite drop_app_le by (rewrite length_drop; lia).
    by rewrite drop_drop, Nat.add_1_r.
Qed.

(** X20.  With a whole size [n] of at least 1 the context is a window on the
    conversation: after [addMessage] it has at most [n] messages, they
    are the end of the old context followed by the new message, and the
    new message is the last; adding messages one by one to an empty
    context leaves the last [n] of them, the same as [updateMessages]
    with all of them; a list of at most [n] messages is kept whole. *)
Theorem context_window (n : Z) :
  1 ≤ n →
  let size := Finite (inject_Z n) in
  (∀ m current,
     (length (addMessage size m current) ≤ Z.to_nat n)%nat ∧
     addMessage size m current `suffix_of` current ++ [m] ∧
     last (addMessage size m current) = Some m) ∧
  (∀ messages,
     (length (updateMessages size messages) ≤ Z.to_nat n)%nat ∧
     updateMessages size messages `suffix_of` messages ∧
     ((length messages ≤ Z.to_nat n)%nat →
        updateMessages size messages = messages)) ∧
  (∀ messages,
     foldl (λ current m, addMessage size m current) clearMessages messages =
       updateMessages size messages).
Proof.
  intros Hn size.
  assert (∀ l : list message,
            slice (negate size) l = drop (length l - Z.to_nat n) l) as Hslice.
  { intros l. subst size. rewrite slice_negate_whole.
    by destruct (Z.ltb_spec 0 n); [|lia]. }
  split_and!.
  - intros m current. unfold addMessage. rewrite Hslice. split_and!.
    + rewrite length_drop. lia.
    + apply suffix_drop.
    + rewrite length_app. cbn.
      rewrite drop_app_le by lia. by rewrite last_snoc.
  - intros messages. unfold updateMessages. rewrite Hslice. split_and!.
    + rewrite length_drop. lia.
    + apply suffix_drop.
    + intros Hshort. by replace (length messages - Z.to_nat n)%nat with 0%nat by lia.
  - intros messages. unfold updateMessages, clearMessages. rewrite Hslice.
    induction messages as [|m messages IH] using rev_ind; [done|].
    rewrite foldl_snoc, IH. unfold addMessage. rewrite Hslice.
    apply keep_last_snoc. lia.
Qed.

Lemma context_window_witness :
  let size := Finite (inject_Z 2) in
  let m1 := {| message_role := user; content := "one" |} in
  let m2 := {| message_role := assistant; content := "two" |} in
  let m3 := {| message_role := user; content := "three" |} in
  1 ≤ 2 ∧
  (length (addMessage size m3 [m1; m2]) ≤ Z.to_nat 2)%nat ∧
  last (addMessage size m3 [m1; m2]) = Some m3 ∧
  foldl (λ current m, addMessage size m current) clearMessages [m1; m2; m3] =
    updateMessages size [m1; m2; m3].
Proof.
  intros size m1 m2 m3.
  assert (1 ≤ 2) as Hn by lia.
  destruct (context_window 2 Hn) as (Hadd & _ & Hfold).
  destruct (Hadd m3 [m1; m2]) as (Hlen & _ & Hlast).
  split_and!; [exact Hn|exact Hlen|exact Hlast|exact (Hfold [m1; m2; m3])].
Defined.

(** X21.  A size of zero, or [NaN], does not give an empty context but one
    without bound: nothing is ever dropped.  A whole size below zero
    drops from the front instead of keeping the end, so a context that
    starts empty stays empty. *)
Theorem context_degenerate_sizes (m : message) (current : list message) :
  addMessage (Finite 0) m current = current ++ [m] ∧
  addMessage NaN m current = current ++ [m] ∧
  updateMessages (Finite 0) current = current ∧
  (∀ n messages, n ≤ -1 →
     foldl (λ current m, addMessage (Finite (inject_Z n)) m current)
       clearMessages messages = []).
Proof.
  split_and!.
  - unfold addMessage. change (Finite 0) with (Finite (inject_Z 0)).
    by rewrite slice_negate_whole.
  - unfold addMessage, slice. cbn [negate ToIntegerOrInfinity].
    change (0 <? 0) with false. cbn iota. by rewrite Z.min_l by lia.
  - unfold updateMessages. change (Finite 0) with (Finite (inject_Z 0)).
    by rewrite slice_negate_whole.
  - intros n messages Hn.
    induction messages as [|m' messages IH] using rev_ind; [done|].
    rewrite foldl_snoc, IH. unfold addMessage.
    rewrite slice_negate_whole.
    destruct (Z.ltb_spec 0 n); [lia|]. apply drop_ge. cbn. lia.
Qed.

(** * The shared audio context *)

Lemma audio_step_keeps w u ctx :
  SHARED_AUDIO_CONTEXT w = Some ctx → is_close u = false →
  SHARED_AUDIO_CONTEXT (audio_step w u) = Some ctx ∧
  constructed (audio_step w u) = constructed w.
Proof.
  intros Hctx Hu. destruct u as [construct|state|construct state|]; cbn.
  - unfold getSharedAudioContext. rewrite Hctx. by destruct (isClient w).
  - unfold suspendAudioContext. rewrite Hctx.
    destruct (isClient w); cbn; [|done]. by case_bool_decide.
  - unfold resumeAudioContext. rewrite Hctx.
    destruct (isClient w); cbn; [|done]. rewrite Hctx. by case_bool_decide.
  - done.
Qed.

Lemma audio_step_makes_one w u :
  is_close u = false →
  (constructed (audio_step w u) = constructed w ∧
   SHARED_AUDIO_CONTEXT (audio_step w u) = SHARED_AUDIO_CONTEXT w) ∨
  (SHARED_AUDIO_CONTEXT w = None ∧
   constructed (audio_step w u) = S (constructed w) ∧
   SHARED_AUDIO_CONTEXT (audio_step w u) = Some (constructed w)).
Proof.
  intros Hu.
  destruct (SHARED_AUDIO_CONTEXT w) as [ctx|] eqn:Hctx.
  { left. destruct (audio_step_keeps w u ctx Hctx Hu) as [-> ->]. done. }
  destruct u as [construct|state|construct state|]; cbn; [| | |done].
  - unfold getSharedAudioContext. rewrite Hctx.
    destruct (isClient w); cbn; [|by left].
    destruct construct; cbn; [by right|by left].
  - unfold suspendAudioContext. rewrite Hctx. left. by destruct (isClient w).
  - unfold resumeAudioContext, getSharedAudioContext. rewrite Hctx.
    destruct (isClient w); cbn; [|by left].
    destruct construct; cbn; [|by left]. right. by case_bool_decide.
Qed.

(** X22.  The context is made once.  As long as [closeAudioContext] is not
    used, whatever else is, at most one context is constructed, and a
    context that is stored stays the stored one, so that every later
    [getSharedAudioContext] on the client returns it without making
    another. *)
Theorem audio_context_is_shared (uses : list audio_use) (w : page) :
  forallb (λ u, negb (is_close u)) uses = true →
  let w' := foldl audio_step w uses in
  (constructed w' ≤ S (constructed w))%nat ∧
  (∀ ctx, SHARED_AUDIO_CONTEXT w = Some ctx →
     SHARED_AUDIO_CONTEXT w' = Some ctx ∧ constructed w' = constructed w ∧
     (isClient w' = true →
      ∀ construct, getSharedAudioContext construct w' = (Returns ctx, w'))).
Proof.
  revert w. induction uses as [|u uses IH]; intros w Huses w'.
  - cbn in *. split; [lia|]. intros ctx Hctx. split_and!; try done.
    intros Hclient construct. unfold getSharedAudioContext.
    by rewrite Hclient, Hctx.
  - cbn in Huses. apply andb_true_iff in Huses as [Hu%negb_true_iff Huses].
    destruct (IH (audio_step w u) Huses) as [Hcount Hkept].
    subst w'. cbn [foldl]. split.
    + destruct (audio_step_makes_one w u Hu) as [[Hsame _]|(_ & Hone & Hnew)].
      * lia.
      * destruct (Hkept _ Hnew) as (_ & Hstay & _). lia.
    + intros ctx Hctx.
      destruct (audio_step_keeps w u ctx Hctx Hu) as [Hctx' Hsame].
      destruct (Hkept _ Hctx') as (Hstored & Hmade & Hget).
      split_and!; [done|congruence|done].
Qed.

Lemma audio_context_is_shared_witness :
  let w := {| isClient := true; SHARED_AUDIO_CONTEXT := None;
              constructed := 0; audio_calls := [] |} in
  let w1 := (getSharedAudioContext (Returns tt) w).2 in
  let uses := [UseSuspend (λ _, ctx_running);
               UseResume (Returns tt) (λ _, ctx_suspended);
               UseGet (Returns tt)] in
  SHARED_AUDIO_CONTEXT w1 = Some 0%nat ∧
  SHARED_AUDIO_CONTEXT (foldl audio_step w1 uses) = Some 0%nat ∧
  constructed (foldl audio_step w1 uses) = 1%nat.
Proof.
  intros w w1 uses.
  destruct (audio_context_is_shared uses w1 eq_refl) as [_ Hkept].
  destruct (Hkept 0%nat eq_refl) as (Hstored & Hmade & _).
  split_and!; [reflexivity|exact Hstored|exact Hmade].
Defined.

(** X23.  Off the client nothing happens: [getSharedAudioContext] throws, the
    other three functions leave everything as it is and [resume] still
    resolves.  On the client, a constructor that throws makes both
    [getSharedAudioContext] and [resumeAudioContext] throw and stores
    nothing.  [closeAudioContext] closes the stored context and forgets
    it, so that the next [getSharedAudioContext] makes a new context
    instead of returning the closed one; a second close does nothing. *)
Theorem audio_context_edges (w : page) (state : nat → context_state) :
  (isClient w = false →
     (∀ construct, getSharedAudioContext construct w = (Throws server_side, w)) ∧
     suspendAudioContext state w = w ∧
     closeAudioContext w = w ∧
     (∀ construct, resumeAudioContext construct state w = (Returns tt, w))) ∧
  (isClient w = true → SHARED_AUDIO_CONTEXT w = None →
     ∀ m, getSharedAudioContext (Throws m) w = (Throws m, w) ∧
          resumeAudioContext (Throws m) state w = (Throws m, w)) ∧
  (isClient w = true →
     SHARED_AUDIO_CONTEXT (closeAudioContext w) = None ∧
     closeAudioContext (closeAudioContext w) = closeAudioContext w ∧
     (getSharedAudioContext (Returns tt) (closeAudioContext w)).1 =
       Returns (constructed w) ∧
     (∀ ctx, SHARED_AUDIO_CONTEXT w = Some ctx →
        audio_calls (closeAudioContext w) =
          audio_calls w ++ [(ctx, call_close)])).
Proof.
  unfold getSharedAudioContext, suspendAudioContext, resumeAudioContext,
    closeAudioContext, getSharedAudioContext.
  split_and!.
  - by intros ->.
  - by intros -> ->.
  - intros Hclient. rewrite Hclient. cbn.
    destruct (SHARED_AUDIO_CONTEXT w) as [ctx|] eqn:Hctx; cbn.
    + split_and!; try done. by intros ? [= <-].
    + rewrite ?Hclient, ?Hctx. cbn. rewrite ?Hclient. by split_and!.
Qed.

Lemma startAgent_twice_witness :
  let first := startAgent sample_start study empty_world in
  let second := startAgent sample_start study first.2 in
  isAgentRunning empty_world study = false ∧
  StartResult.alreadyRunning first.1 = None ∧
  second.1 =
    {| StartResult.success := true; StartResult.error := None;
       StartResult.pid := Some 4242;
       StartResult.alreadyRunning := Some true |} ∧
  length (children second.2) = 1%nat.
Proof.
  intros first second.
  assert (isAgentRunning empty_world study = false) as Hidle by reflexivity.
  destruct (startAgent_twice sample_start sample_start study empty_world 0
              (Some 4242) (launch sample_launch study empty_world).2
              Hidle eq_refl eq_refl eq_refl)
    as (Hfirst & Hsecond & _ & Hone).
  split_and!; [exact Hidle|exact Hfirst|exact Hsecond|exact Hone].
Defined.

(** * Names of the artifacts *)

Lemma string_length_app (s1 s2 : string) :
  String.length (s1 +:+ s2) = (String.length s1 + String.length s2)%nat.
Proof.
  induction s1 as [|a s1 IH]; [done|].
  change (String a s1 +:+ s2) with (String a (s1 +:+ s2)). cbn.
  by rewrite IH.
Qed.

Lemma string_app_inv_tail (s1 s2 t : string) :
  s1 +:+ t = s2 +:+ t → s1 = s2.
Proof.
  revert s2. induction s1 as [|a s1 IH]; intros [|b s2] H.
  - done.
  - apply (f_equal String.length) in H.
    rewrite !string_length_app in H. cbn in H. lia.
  - apply (f_equal String.length) in H.
    rewrite !string_length_app in H. cbn in H. lia.
  - change (String a (s1 +:+ t) = String b (s2 +:+ t)) in H.
    injection H as -> H. f_equal. by apply IH.
Qed.

Lemma stamped_name_inj (roomName suffix : string) (t t' : Z) :
  "agent-" +:+ roomName +:+ "-" +:+ pretty t +:+ suffix =
  "agent-" +:+ roomName +:+ "-" +:+ pretty t' +:+ suffix →
  t = t'.
Proof.
  intros H.
  apply (inj (String.app "agent-")), (inj (String.app roomName)),
    (inj (String.app "-")) in H.
  apply string_app_inv_tail in H. by apply (inj pretty) in H.
Qed.

(** X25.  For one room, the name of the script, of the log and of the error
    log each determine the reading of the clock they were made from: two
    launches of a room write to the same file only when [Date.now()]
    gave them the same millisecond. *)
Theorem artifact_names_differ (roomName : string) (t t' : Z) :
  t ≠ t' →
  script_name roomName t ≠ script_name roomName t' ∧
  log_name roomName t ≠ log_name roomName t' ∧
  errorLog_name roomName t ≠ errorLog_name roomName t'.
Proof.
  intros Hne. unfold script_name, log_name, errorLog_name.
  split_and!; intros H; by apply stamped_name_inj in H.
Qed.

Lemma artifact_names_differ_witness :
  1700000000000 ≠ 1700000000001 ∧
  script_name study 1700000000000 ≠ script_name study 1700000000001.
Proof.
  assert (1700000000000 ≠ 1700000000001) as Hne by lia.
  split; [exact Hne|].
  exact (proj1 (artifact_names_differ study _ _ Hne)).
Defined.
